(** * Skia GPU resource cache gate and pixel-transfer test helpers

    A shallow embedding of
    - [src/gpu/GrGpuResourceCacheAccess.h]: the privileged gate
      [GrGpuResource::CacheAccess] through which [GrResourceCache] reaches
      into a [GrGpuResource];
    - [tests/TransferPixelsTest.cpp]: [fill_transfer_data],
      [does_full_buffer_contain_correct_values] and [basic_transfer_test].

    C++ objects live in an explicit heap ([gmap] from addresses to object
    states); the gate's member functions are state transformers in a small
    state-and-failure monad, failure standing for the dereference of a
    pointer to an object that no longer exists.  Pixel buffers reached
    through a [GrColor*] are maps from element offsets to 32-bit colours,
    buffers reached through a [void*] are maps from byte offsets to bytes. *)

From Stdlib Require Import ZArith Lia Bool List.
From Stdlib Require Import Floats.SpecFloat.
From stdpp Require Import base option numbers list gmap.

Local Open Scope Z_scope.

(* ===================================================================== *)
(** * Part I: GrGpuResource and its cache-access gate                     *)
(* ===================================================================== *)

Module GrGpuResource.

(** Modelled from the spec: resource keys are declared in GrResourceKey.h
    (absent).  The data model describes
    them as [optional<StableKey>] and [optional<ShapeKey>]; a key is valid
    exactly when it is present. *)
Definition GrResourceKey := option positive.

Definition isValid (k : GrResourceKey) : bool :=
  match k with Some _ => true | None => false end.

(** Modelled from the spec: the [LifeCycle] enumeration is declared in
    GrGpuResource.h (absent); the data model lists the modes Owned and
    Wrapped. *)
Inductive LifeCycle := kOwned_LifeCycle | kWrapped_LifeCycle.

Definition LifeCycle_eqb (a b : LifeCycle) : bool :=
  match a, b with
  | kOwned_LifeCycle, kOwned_LifeCycle => true
  | kWrapped_LifeCycle, kWrapped_LifeCycle => true
  | _, _ => false
  end.

(** The private state of a [GrGpuResource] that the gate touches.  The
    fields carry the names the gate uses ([fScratchKey], [fLifeCycle],
    [fTimestamp], [fCacheArrayIndex]); [fContentKey] is what
    [getContentKey()] returns and [fBudgeted] what
    [resourcePriv().isBudgeted()] returns.  [fHolders] counts the
    external holders of the object and [fBacking] is the handle of the
    GPU allocation behind it, [None] once it has been given up. *)
Record t := mk {
  fContentKey : GrResourceKey;
  fScratchKey : GrResourceKey;
  fBudgeted : bool;
  fLifeCycle : LifeCycle;
  fTimestamp : Z;
  fCacheArrayIndex : Z;
  fHolders : nat;
  fBacking : option Z
}.

Definition getContentKey (r : t) : GrResourceKey := fContentKey r.
Definition isBudgeted (r : t) : bool := fBudgeted r.

Definition with_timestamp (ts : Z) (r : t) : t :=
  mk (fContentKey r) (fScratchKey r) (fBudgeted r) (fLifeCycle r)
     ts (fCacheArrayIndex r) (fHolders r) (fBacking r).

Definition with_cacheArrayIndex (i : Z) (r : t) : t :=
  mk (fContentKey r) (fScratchKey r) (fBudgeted r) (fLifeCycle r)
     (fTimestamp r) i (fHolders r) (fBacking r).

Definition with_backing (b : option Z) (r : t) : t :=
  mk (fContentKey r) (fScratchKey r) (fBudgeted r) (fLifeCycle r)
     (fTimestamp r) (fCacheArrayIndex r) (fHolders r) b.

Definition with_holders (n : nat) (r : t) : t :=
  mk (fContentKey r) (fScratchKey r) (fBudgeted r) (fLifeCycle r)
     (fTimestamp r) (fCacheArrayIndex r) n (fBacking r).

(** Modelled from the spec: [GrGpuResource::isPurgeable] is defined in
    GrGpuResource.h (absent).  The glossary: a resource is purgeable when
    it has zero external holders. *)
Definition spec_isPurgeable (r : t) : bool := Nat.eqb (fHolders r) 0.

(** The resource has been torn down: it has no GPU allocation any more. *)
Definition wasDestroyed (r : t) : bool :=
  match fBacking r with None => true | Some _ => false end.

(** Calls that reach the 3D driver. *)
Inductive DriverCall := DriverFree (handle : Z).

(** The members of [GrGpuResource] that the gate calls and that are defined
    outside it: the teardown hooks [release()] and [abandon()], which
    dispatch to the virtual [onRelease] and [onAbandon] of the subclass, and
    the query [isPurgeable()].  A hook maps the object state to its new
    state and the driver calls it made. *)
Class Members := {
  hook_release : t -> t * list DriverCall;
  hook_abandon : t -> t * list DriverCall;
  isPurgeable : t -> bool
}.

(** Modelled from the spec: the hooks themselves are defined in
    GrGpuResource.cpp and its subclasses (absent).  The normal release
    hook returns a real GPU allocation to the driver, except for a wrapped
    resource whose allocation is owned externally; the device-lost hook
    forgets the allocation and attempts no driver call. *)
Definition spec_release (r : t) : t * list DriverCall :=
  match fBacking r with
  | Some h =>
      (with_backing None r,
       if LifeCycle_eqb (fLifeCycle r) kWrapped_LifeCycle then []
       else [DriverFree h])
  | None => (r, [])
  end.

Definition spec_abandon (r : t) : t * list DriverCall :=
  (with_backing None r, []).

Definition spec_members : Members :=
  {| hook_release := spec_release;
     hook_abandon := spec_abandon;
     isPurgeable := spec_isPurgeable |}.

End GrGpuResource.

(** ** The heap of resource objects and the observable trace *)

Definition addr := positive.

Inductive Event :=
| EvRelease (p : addr)                       (* fResource->release() entered *)
| EvAbandon (p : addr)                       (* fResource->abandon() entered *)
| EvDriver (c : GrGpuResource.DriverCall)    (* a call into the 3D driver *)
| EvDelete (p : addr).                       (* SkDELETE(p) *)

Record World := mkWorld {
  heap : gmap addr GrGpuResource.t;
  trace : list Event
}.

(** State and failure: [None] is the dereference of a dangling pointer. *)
Definition M (A : Type) : Type := World -> option (A * World).

Definition ret {A} (a : A) : M A := fun w => Some (a, w).

Definition bind {A B} (m : M A) (k : A -> M B) : M B :=
  fun w => match m w with
           | Some (a, w') => k a w'
           | None => None
           end.

Notation "'let*' x ':=' m 'in' k" := (bind m (fun x => k))
  (at level 10, x name, m at level 100, k at level 200).
Notation "'exec' m 'in' k" := (bind m (fun _ => k))
  (at level 10, m at level 100, k at level 200).

(** Reading the object that [p] points to. *)
Definition deref (p : addr) : M GrGpuResource.t :=
  fun w => match heap w !! p with
           | Some r => Some (r, w)
           | None => None
           end.

(** A write to fields of the object that [p] points to. *)
Definition modify (p : addr) (f : GrGpuResource.t -> GrGpuResource.t) : M unit :=
  fun w => match heap w !! p with
           | Some r => Some (tt, mkWorld (<[p := f r]> (heap w)) (trace w))
           | None => None
           end.

Definition emit (es : list Event) : M unit :=
  fun w => Some (tt, mkWorld (heap w) (trace w ++ es)).

(** [SkDELETE(p)]: the object leaves the heap. *)
Definition SkDELETE (p : addr) : M unit :=
  fun w => match heap w !! p with
           | Some _ => Some (tt, mkWorld (delete p (heap w)) (trace w ++ [EvDelete p]))
           | None => None
           end.

(** Modelled from the spec: dropping a hold on a resource is done by
    [GrGpuResource::unref] outside the gate (absent).  A resource whose
    destruction the gate deferred "persists until the last external holder
    relinquishes it, at which point ordinary ownership-drop destruction
    applies"; a resource that is still backed stays with the cache when its
    count drops to zero. *)
Definition unref (p : addr) : M unit :=
  let* r := deref p in
  let r' := GrGpuResource.with_holders (Nat.pred (GrGpuResource.fHolders r)) r in
  if GrGpuResource.spec_isPurgeable r' && GrGpuResource.wasDestroyed r'
  then SkDELETE p
  else modify p (fun _ => r').

Module CacheAccess.
Import GrGpuResource.

Section Gate.
Context {H : Members}.

(** The gate holds nothing but [GrGpuResource* fResource]. *)
Record t := mk { fResource : addr }.

(** [fResource->release()] and [fResource->abandon()]. *)
Definition resource_release (p : addr) : M unit :=
  let* r := deref p in
  exec emit (EvRelease p :: map EvDriver (snd (hook_release r))) in
  modify p (fun _ => fst (hook_release r)).

Definition resource_abandon (p : addr) : M unit :=
  let* r := deref p in
  exec emit (EvAbandon p :: map EvDriver (snd (hook_abandon r))) in
  modify p (fun _ => fst (hook_abandon r)).

Definition resource_isPurgeable (p : addr) : M bool :=
  let* r := deref p in ret (isPurgeable r).

(** [bool isScratch() const] *)
Definition isScratch (ca : t) : M bool :=
  let* r := deref (fResource ca) in
  ret (negb (isValid (getContentKey r)) && isValid (fScratchKey r) &&
       isBudgeted r).

(** [bool isWrapped() const] *)
Definition isWrapped (ca : t) : M bool :=
  let* r := deref (fResource ca) in
  ret (LifeCycle_eqb kWrapped_LifeCycle (fLifeCycle r)).

(** [void release()] *)
Definition release (ca : t) : M unit :=
  exec resource_release (fResource ca) in
  let* b := resource_isPurgeable (fResource ca) in
  if b then SkDELETE (fResource ca) else ret tt.

(** [void abandon()] *)
Definition abandon (ca : t) : M unit :=
  exec resource_abandon (fResource ca) in
  let* b := resource_isPurgeable (fResource ca) in
  if b then SkDELETE (fResource ca) else ret tt.

(** [uint32_t timestamp() const] and [void setTimestamp(uint32_t ts)];
    the argument is converted to [uint32_t] at the call. *)
Definition timestamp (ca : t) : M Z :=
  let* r := deref (fResource ca) in ret (fTimestamp r).

Definition setTimestamp (ca : t) (ts : Z) : M unit :=
  modify (fResource ca) (with_timestamp (ts mod 2 ^ 32)).

(** [int* accessCacheIndex() const] hands out the address of
    [fCacheArrayIndex]; the cache reads and writes through it. *)
Definition accessCacheIndex_load (ca : t) : M Z :=
  let* r := deref (fResource ca) in ret (fCacheArrayIndex r).

Definition accessCacheIndex_store (ca : t) (i : Z) : M unit :=
  modify (fResource ca) (with_cacheArrayIndex i).

(** The operations the cache performs on a resource through the gate. *)
Inductive Op :=
| OpRelease
| OpAbandon
| OpSetTimestamp (ts : Z)
| OpStoreCacheIndex (i : Z).

Definition run_op (ca : t) (o : Op) : M unit :=
  match o with
  | OpRelease => release ca
  | OpAbandon => abandon ca
  | OpSetTimestamp ts => setTimestamp ca ts
  | OpStoreCacheIndex i => accessCacheIndex_store ca i
  end.

Fixpoint run_ops (os : list (t * Op)) : M unit :=
  match os with
  | [] => ret tt
  | (ca, o) :: os' => exec run_op ca o in run_ops os'
  end.

End Gate.

(** [GrGpuResource::cacheAccess()] *)
Definition cacheAccess (this : addr) : t := mk this.

End CacheAccess.

(* ===================================================================== *)
(** * Part II: the helpers of tests/TransferPixelsTest.cpp                *)
(* ===================================================================== *)

(** ** GrColor *)

(** [GrColor] is a [uint32_t]. *)
Definition GrColor := Z.

Definition u32 (x : Z) : Z := x mod 2 ^ 32.

(** Modelled from the spec: [GrColorPackRGBA], the [GrColorUnpack] macros and
    the channel shifts are declared in GrColor.h (absent); the spec speaks
    of four 8-bit channels per pixel.  The
    shifts are those of a little-endian build, where red is the byte at the
    lowest address. *)
Definition GrColor_SHIFT_R : Z := 0.
Definition GrColor_SHIFT_G : Z := 8.
Definition GrColor_SHIFT_B : Z := 16.
Definition GrColor_SHIFT_A : Z := 24.

Definition GrColorPackRGBA (r g b a : Z) : GrColor :=
  u32 (Z.lor (Z.lor (Z.lor (Z.shiftl r GrColor_SHIFT_R)
                           (Z.shiftl g GrColor_SHIFT_G))
                    (Z.shiftl b GrColor_SHIFT_B))
             (Z.shiftl a GrColor_SHIFT_A)).

Definition GrColorUnpackR (c : GrColor) : Z := Z.land (Z.shiftr c GrColor_SHIFT_R) 255.
Definition GrColorUnpackG (c : GrColor) : Z := Z.land (Z.shiftr c GrColor_SHIFT_G) 255.
Definition GrColorUnpackB (c : GrColor) : Z := Z.land (Z.shiftr c GrColor_SHIFT_B) 255.
Definition GrColorUnpackA (c : GrColor) : Z := Z.land (Z.shiftr c GrColor_SHIFT_A) 255.

(** ** Single-precision arithmetic of the gradient

    [fill_transfer_data] computes [(unsigned int)(256.f*(k / (float)n))] for
    ints [0 <= k < n].  The three float operations are written out on
    integers: IEEE-754 binary32 has a 24-bit significand and rounds to
    nearest, ties to even. *)
Module Float32.

(** Nearest integer to [p/q], ties to even ([0 <= p], [0 < q]). *)
Definition rne (p q : Z) : Z :=
  let f := p / q in
  match 2 * (p mod q) ?= q with
  | Lt => f
  | Gt => f + 1
  | Eq => if Z.even f then f else f + 1
  end.

(** [(float)n] for an int [0 <= n]: the value of the float, which is an
    integer.  Up to [2^24] the conversion is exact; above, the integer is
    rounded to 24 significant bits. *)
Definition of_int (n : Z) : Z :=
  if n <? 2 ^ 24 then n
  else let s := Z.log2 n - 23 in rne n (2 ^ s) * 2 ^ s.

(** A float in [[0, 1]] as the dyadic [mant / 2^scale]. *)
Record dyadic := mkDyadic { mant : Z; scale : Z }.

(** [a / b] for floats with integer values [0 <= a <= b], [0 < b]: the
    quotient is scaled so that its significand has 24 bits, then rounded. *)
Definition div (a b : Z) : dyadic :=
  if a =? 0 then mkDyadic 0 0
  else
    let s0 := 23 + (Z.log2 b - Z.log2 a) in
    let s := if a * 2 ^ s0 <? 2 ^ 23 * b then s0 + 1 else s0 in
    mkDyadic (rne (a * 2 ^ s) b) s.

(** [256.f * x]: scaling by a power of two is exact. *)
Definition mul256 (x : dyadic) : dyadic := mkDyadic (256 * mant x) (scale x).

(** [(unsigned int)x]: truncation of a non-negative float. *)
Definition to_uint (x : dyadic) : Z := mant x / 2 ^ scale x.

(** The same computation with the Standard Library's IEEE-754
    specification, instantiated at binary32. *)
Definition prec : Z := 24.
Definition emax : Z := 128.

Definition sf_of_int (n : Z) : spec_float := binary_normalize prec emax n 0 false.

Definition sf_to_uint (x : spec_float) : Z :=
  match x with
  | S754_finite false m e =>
      if 0 <=? e then Z.pos m * 2 ^ e else Z.pos m / 2 ^ (- e)
  | _ => 0
  end.

Definition sf_gradient (k n : Z) : Z :=
  sf_to_uint (SFmul prec emax (sf_of_int 256)
                    (SFdiv prec emax (sf_of_int k) (sf_of_int n))).

End Float32.

(** [(unsigned int)(256.f*(k / (float)n))] *)
Definition gradient (k n : Z) : Z :=
  Float32.to_uint (Float32.mul256 (Float32.div (Float32.of_int k) (Float32.of_int n))).

(** ** fill_transfer_data *)

(** [data[idx] = c] through a [GrColor*]: the array is the map from element
    offsets (relative to the pointer) to the colours stored there. *)
Definition store (data : Z -> GrColor) (idx : Z) (c : GrColor) : Z -> GrColor :=
  fun x => if x =? idx then c else data x.

(** The colour written for column [i] of row [j]. *)
Definition gradient_color (left top width height i j : Z) : GrColor :=
  let red := gradient (i - left) width in
  let green := gradient (j - top) height in
  GrColorPackRGBA (u32 (red - Z.shiftr red 8))
                  (u32 (green - Z.shiftr green 8)) 255 255.

(** The body of the inner loop. *)
Definition fill_pixel (left top width height bufferWidth j : Z)
    (data : Z -> GrColor) (i : Z) : Z -> GrColor :=
  store data (i + j * bufferWidth) (gradient_color left top width height i j).

(** [for (int i = left; i < left + width; ++i)] *)
Definition fill_row (left top width height bufferWidth : Z)
    (data : Z -> GrColor) (j : Z) : Z -> GrColor :=
  foldl (fill_pixel left top width height bufferWidth j) data (seqZ left width).

(** [for (int j = top; j < top + height; ++j)] *)
Definition fill_transfer_data (left top width height bufferWidth : Z)
    (data : Z -> GrColor) : Z -> GrColor :=
  foldl (fill_row left top width height bufferWidth) data (seqZ top height).

(** ** does_full_buffer_contain_correct_values *)

Inductive GrSurfaceOrigin := kTopLeft_GrSurfaceOrigin | kBottomLeft_GrSurfaceOrigin.

Definition GrSurfaceOrigin_eqb (a b : GrSurfaceOrigin) : bool :=
  match a, b with
  | kTopLeft_GrSurfaceOrigin, kTopLeft_GrSurfaceOrigin => true
  | kBottomLeft_GrSurfaceOrigin, kBottomLeft_GrSurfaceOrigin => true
  | _, _ => false
  end.

(** The inner loop: [false] as soon as [srcPtr[i] != dstPtr[i]]. *)
Fixpoint row_matches (src dst : Z -> GrColor) (srcPtr dstPtr : Z) (cols : list Z) : bool :=
  match cols with
  | [] => true
  | i :: cols' =>
      if negb (src (srcPtr + i) =? dst (dstPtr + i)) then false
      else row_matches src dst srcPtr dstPtr cols'
  end.

(** The outer loop, with the two row pointers advanced after each row. *)
Fixpoint rows_match (src dst : Z -> GrColor) (width bufferWidth dstIncrement : Z)
    (srcPtr dstPtr : Z) (rows : list Z) : bool :=
  match rows with
  | [] => true
  | _ :: rows' =>
      if row_matches src dst srcPtr dstPtr (seqZ 0 width)
      then rows_match src dst width bufferWidth dstIncrement
                      (srcPtr + bufferWidth) (dstPtr + dstIncrement) rows'
      else false
  end.

Definition does_full_buffer_contain_correct_values (srcBuffer dstBuffer : Z -> GrColor)
    (width height bufferWidth bufferHeight : Z) (origin : GrSurfaceOrigin) : bool :=
  let srcPtr := 0 in
  let bottomUp := GrSurfaceOrigin_eqb kBottomLeft_GrSurfaceOrigin origin in
  let dstPtr := if bottomUp then 0 + bufferWidth * (bufferHeight - 1) else 0 in
  let dstIncrement := if bottomUp then - bufferWidth else bufferWidth in
  rows_match srcBuffer dstBuffer width bufferWidth dstIncrement srcPtr dstPtr
             (seqZ 0 height).

(* ===================================================================== *)
(** * Part III: the transfer-buffer protocol                              *)
(* ===================================================================== *)

(** [GrGpu::transferPixels] and [GrGpu::readPixels] are called by the test
    but defined in GrGpu.cpp and the backends (absent). *)
Module GrGpu.

Inductive GrColorType := kRGBA_8888 | kBGRA_8888.

(** Modelled from the spec: [GrColorTypeBytesPerPixel] is absent; both
    colour types the harness exercises are 4-channel 8-bit formats. *)
Definition bytesPerPixel (ct : GrColorType) : Z := 4.

(** Modelled from the spec: [GrTexture] is absent.  A texture has a width
    and a height in pixels and holds its physical rows of bytes;
    [canTransfer] records whether its format accepts a transfer whose
    source is a mapped buffer (a capability of the backend, fixed when the
    texture is created), [canRead] whether the backend can read it back. *)
Record GrTexture := mkTexture {
  width : Z;
  height : Z;
  canTransfer : bool;
  canRead : bool;
  texels : Z -> Z -> Z           (* physical row, byte column *)
}.

(** The rectangle [(x, y, w, h)] lies inside a [tw] by [th] texture. *)
Definition contains (tw th x y w h : Z) : bool :=
  (0 <=? x) && (0 <=? y) && (0 <=? w) && (0 <=? h) &&
  (x + w <=? tw) && (y + h <=? th).

(** Modelled from the spec: [GrGpu::transferPixels] is absent.  It copies
    [h] rows of [w] pixels each, reading from [buffer] starting at
    [offset] bytes and advancing [rowBytes] per row, into the texture
    sub-rectangle at [(x, y)]; it fails, leaving the texture as it was,
    when the format cannot accept a buffer-sourced transfer or the
    rectangle lies outside the texture bounds. *)
Definition transferPixels (tex : GrTexture) (x y w h : Z) (ct : GrColorType)
    (buffer : Z -> Z) (offset rowBytes : Z) : bool * GrTexture :=
  if negb (canTransfer tex) || negb (contains (width tex) (height tex) x y w h)
  then (false, tex)
  else
    let bpp := bytesPerPixel ct in
    (true,
     mkTexture (width tex) (height tex) (canTransfer tex) (canRead tex)
       (fun r c =>
          if (y <=? r) && (r <? y + h) && (bpp * x <=? c) && (c <? bpp * (x + w))
          then buffer (offset + (r - y) * rowBytes + (c - bpp * x))
          else texels tex r c)).

(** The physical row behind logical (top-down) row [l]. *)
Definition physicalRow (tex : GrTexture) (origin : GrSurfaceOrigin) (l : Z) : Z :=
  match origin with
  | kTopLeft_GrSurfaceOrigin => l
  | kBottomLeft_GrSurfaceOrigin => height tex - 1 - l
  end.

(** One output row: the [n] bytes from byte column [x] of a texture row,
    written at the start of output row [j]. *)
Definition write_row (tex : GrTexture) (origin : GrSurfaceOrigin) (x y n rowBytes : Z)
    (out : Z -> Z) (j : Z) : Z -> Z :=
  fun b =>
    if (j * rowBytes <=? b) && (b <? j * rowBytes + n)
    then texels tex (physicalRow tex origin (y + j)) (x + (b - j * rowBytes))
    else out b.

(** Modelled from the spec: [GrGpu::readPixels] is absent.  It reads back
    the rectangle [(x, y, w, h)] given in logical, top-down coordinates;
    with a bottom-up origin logical row [l] is sourced from physical row
    [height - 1 - l]; the output is written top-down, one row every
    [rowBytes] bytes.  It fails, leaving the output as it was, when the
    backend cannot read the texture back or the rectangle lies outside the
    texture bounds. *)
Definition readPixels (tex : GrTexture) (origin : GrSurfaceOrigin) (x y w h : Z)
    (ct : GrColorType) (outBuffer : Z -> Z) (rowBytes : Z) : bool * (Z -> Z) :=
  if negb (canRead tex) || negb (contains (width tex) (height tex) x y w h)
  then (false, outBuffer)
  else
    let bpp := bytesPerPixel ct in
    (true,
     foldl (write_row tex origin (bpp * x) y (bpp * w) rowBytes) outBuffer (seqZ 0 h)).

End GrGpu.

(** ** Buffers seen as bytes *)

(** [sizeof(GrColor)] *)
Definition sizeof_GrColor : Z := 4.

(** The bytes of a [GrColor] array, as [memcpy] sees them (little-endian). *)
Definition bytes_of_colors (a : Z -> GrColor) : Z -> Z :=
  fun b => Z.land (Z.shiftr (a (b / 4)) (8 * (b mod 4))) 255.

(** A byte buffer read through a [GrColor*]. *)
Definition colors_of_bytes (m : Z -> Z) : Z -> GrColor :=
  fun i => m (4 * i) + Z.shiftl (m (4 * i + 1)) 8 +
           Z.shiftl (m (4 * i + 2)) 16 + Z.shiftl (m (4 * i + 3)) 24.

(** [memset(p, c, size)]: the value is converted to [unsigned char]. *)
Definition memset (m : Z -> Z) (c size : Z) : Z -> Z :=
  fun b => if (0 <=? b) && (b <? size) then c mod 256 else m b.

(** ** basic_transfer_test *)

Definition kTextureWidth : Z := 16.
Definition kTextureHeight : Z := 16.
Definition kBufferWidth : Z := 20.
Definition kBufferHeight : Z := 16.
Definition kLeft : Z := 2.
Definition kTop : Z := 10.
Definition kWidth : Z := 10.
Definition kHeight : Z := 2.

(** The state that one pass of the loop of [basic_transfer_test] hands to the
    next: the contents of [srcBuffer], of the transfer buffer [buffer] and
    of [dstBuffer]. *)
Record TestBuffers := mkTestBuffers {
  srcBuffer : Z -> GrColor;
  buffer : Z -> Z;
  dstBuffer : Z -> Z
}.

(** One pass of the loop [for (auto srgbEncoding : ...)] that gets as far as
    [createTexture], which returned [tex]: the outcomes of its four
    [REPORTER_ASSERT]s in program order, and the buffers it leaves.  An
    assertion guarded by [if (result)] that is skipped counts as passed. *)
Definition transfer_pass (colorType : GrGpu.GrColorType) (origin : GrSurfaceOrigin)
    (tex : GrGpu.GrTexture) (b : TestBuffers) : list bool * TestBuffers :=
  let rowBytes := kBufferWidth * sizeof_GrColor in
  let size := rowBytes * kBufferHeight in
  (* transfer full data *)
  let '(result1, tex1) :=
    GrGpu.transferPixels tex 0 0 kTextureWidth kTextureHeight colorType
      (buffer b) 0 rowBytes in
  let dst1 := memset (dstBuffer b) 52685 size in
  let '(result2, dst2) :=
    GrGpu.readPixels tex1 origin 0 0 kTextureWidth kTextureHeight colorType dst1 rowBytes in
  let check2 :=
    if result2
    then does_full_buffer_contain_correct_values (srcBuffer b) (colors_of_bytes dst2)
           kTextureWidth kTextureHeight kBufferWidth kBufferHeight origin
    else true in
  (* transfer partial data *)
  let srcBuffer' := fill_transfer_data kLeft kTop kWidth kHeight kBufferWidth (srcBuffer b) in
  let buffer' := bytes_of_colors srcBuffer' in
  let offset := sizeof_GrColor * (kTop * kBufferWidth + kLeft) in
  let '(result3, tex2) :=
    GrGpu.transferPixels tex1 kLeft kTop kWidth kHeight colorType buffer' offset rowBytes in
  let dst3 := memset dst2 52685 size in
  let '(result4, dst4) :=
    GrGpu.readPixels tex2 origin 0 0 kTextureWidth kTextureHeight colorType dst3 rowBytes in
  let check4 :=
    if result4
    then does_full_buffer_contain_correct_values srcBuffer' (colors_of_bytes dst4)
           kTextureWidth kTextureHeight kBufferWidth kBufferHeight origin
    else true in
  ([result1; check2; result3; check4], mkTestBuffers srcBuffer' buffer' dst4).

Fixpoint transfer_passes (colorType : GrGpu.GrColorType) (origin : GrSurfaceOrigin)
    (texs : list GrGpu.GrTexture) (b : TestBuffers) : list bool :=
  match texs with
  | [] => []
  | tex :: texs' =>
      let '(asserts, b') := transfer_pass colorType origin tex b in
      asserts ++ transfer_passes colorType origin texs' b'
  end.

(** [basic_transfer_test]: the gradient is written to [srcBuffer] and copied
    to the transfer buffer once, then the passes run.  [texs] are the
    textures of the passes that are not skipped (one per sRGB encoding the
    context supports; none when the context cannot map buffers or the
    transfer buffer cannot be created); [src0] and [dst0] are the contents
    of the freshly allocated [srcBuffer] and [dstBuffer].  The result lists
    the outcomes of all [REPORTER_ASSERT]s. *)
Definition basic_transfer_test (texs : list GrGpu.GrTexture)
    (colorType : GrGpu.GrColorType) (origin : GrSurfaceOrigin)
    (src0 : Z -> GrColor) (dst0 : Z -> Z) : list bool :=
  let src := fill_transfer_data 0 0 kTextureWidth kTextureHeight kBufferWidth src0 in
  transfer_passes colorType origin texs (mkTestBuffers src (bytes_of_colors src) dst0).

(* ===================================================================== *)
(** * Part IV: definitions used in the statements                         *)
(* ===================================================================== *)

(** The element of [dstBuffer] that is compared with [srcBuffer[j*bufferWidth + i]]. *)
Definition compared_dst_index (bufferWidth bufferHeight : Z) (origin : GrSurfaceOrigin)
    (i j : Z) : Z :=
  match origin with
  | kTopLeft_GrSurfaceOrigin => j * bufferWidth + i
  | kBottomLeft_GrSurfaceOrigin => (bufferHeight - 1 - j) * bufferWidth + i
  end.

(** The source row whose bytes end up in output row [j] of a full
    round trip through a texture of height [h]. *)
Definition round_trip_row (origin : GrSurfaceOrigin) (h j : Z) : Z :=
  match origin with
  | kTopLeft_GrSurfaceOrigin => j
  | kBottomLeft_GrSurfaceOrigin => h - 1 - j
  end.

(** What a teardown through the gate does, for a hook result [(r', calls)]
    announced by the event [ev]. *)
Definition torn_down {H : GrGpuResource.Members} (p : addr) (ev : Event)
    (r' : GrGpuResource.t) (calls : list GrGpuResource.DriverCall) (w : World) : World :=
  if GrGpuResource.isPurgeable r'
  then mkWorld (delete p (heap w))
               (trace w ++ (ev :: map EvDriver calls) ++ [EvDelete p])
  else mkWorld (<[p := r']> (heap w))
               (trace w ++ (ev :: map EvDriver calls)).

(** A 16 by 16 texture that accepts transfers, and the gradient that
    [basic_transfer_test] first uploads. *)
Definition test_texture : GrGpu.GrTexture := GrGpu.mkTexture 16 16 true true (fun _ _ => 0).

Definition test_srcBuffer : Z -> GrColor :=
  fill_transfer_data 0 0 kTextureWidth kTextureHeight kBufferWidth (fun _ => 0).

(** A budgeted scratch resource nobody holds, one that two clients hold, and
    a world with both. *)
Definition free_resource : GrGpuResource.t :=
  GrGpuResource.mk None (Some 7%positive) true GrGpuResource.kOwned_LifeCycle
                   0 0 0%nat (Some 42).

Definition held_resource : GrGpuResource.t :=
  GrGpuResource.mk (Some 3%positive) (Some 7%positive) true
                   GrGpuResource.kOwned_LifeCycle 0 1 2%nat (Some 43).

Definition sample_world : World :=
  mkWorld (<[2%positive := held_resource]> {[1%positive := free_resource]}) [].

(** Closed arithmetic side conditions, settled by evaluation. *)
Ltac concrete := vm_compute; repeat split; first [reflexivity | discriminate].

(* ===================================================================== *)
(** * Part V: definitions for the further properties                      *)
(* ===================================================================== *)

(** The objects that a stretch of the trace reports as deleted, in order. *)
Definition deleted (es : list Event) : list addr :=
  omap (fun e => match e with EvDelete p => Some p | _ => None end) es.

(** The resources that a sequence of gate operations is addressed to. *)
Definition targets (ops : list (CacheAccess.t * CacheAccess.Op)) : list addr :=
  map (fun o => CacheAccess.fResource (fst o)) ops.


(** [CacheAccess(const CacheAccess& that) : fResource(that.fResource)] *)
Definition CacheAccess_copy (that : CacheAccess.t) : CacheAccess.t :=
  CacheAccess.mk (CacheAccess.fResource that).

(** ** The gate over hooks that may reach the whole world

    [fResource->release()] and [fResource->abandon()] are calls into code
    outside the gate: a hook may touch the cache or other resources, delete
    objects, or fail.  Here the members the gate calls are arbitrary
    computations on the world, and [release()] and [abandon()] are written
    over them as in the header. *)
Record WorldMembers := mkWorldMembers {
  world_release : addr -> M unit;
  world_abandon : addr -> M unit;
  world_isPurgeable : addr -> World -> option bool
}.

(** [fResource->isPurgeable()], a [const] query. *)
Definition query_isPurgeable (m : WorldMembers) (p : addr) : M bool :=
  fun w => match world_isPurgeable m p w with
           | Some b => Some (b, w)
           | None => None
           end.

Definition release_in (m : WorldMembers) (ca : CacheAccess.t) : M unit :=
  exec world_release m (CacheAccess.fResource ca) in
  let* b := query_isPurgeable m (CacheAccess.fResource ca) in
  if b then SkDELETE (CacheAccess.fResource ca) else ret tt.

Definition abandon_in (m : WorldMembers) (ca : CacheAccess.t) : M unit :=
  exec world_abandon m (CacheAccess.fResource ca) in
  let* b := query_isPurgeable m (CacheAccess.fResource ca) in
  if b then SkDELETE (CacheAccess.fResource ca) else ret tt.

Definition run_op_in (m : WorldMembers) (ca : CacheAccess.t) (o : CacheAccess.Op) : M unit :=
  match o with
  | CacheAccess.OpRelease => release_in m ca
  | CacheAccess.OpAbandon => abandon_in m ca
  | CacheAccess.OpSetTimestamp ts => CacheAccess.setTimestamp ca ts
  | CacheAccess.OpStoreCacheIndex i => CacheAccess.accessCacheIndex_store ca i
  end.

Fixpoint run_ops_in (m : WorldMembers) (os : list (CacheAccess.t * CacheAccess.Op)) : M unit :=
  match os with
  | [] => ret tt
  | (ca, o) :: os' => exec run_op_in m ca o in run_ops_in m os'
  end.

(** Hooks that act on their own object only, seen as members on the world. *)
Definition lift_members (H : GrGpuResource.Members) : WorldMembers :=
  mkWorldMembers
    (@CacheAccess.resource_release H)
    (@CacheAccess.resource_abandon H)
    (fun p w => match heap w !! p with
                | Some r => Some (GrGpuResource.isPurgeable r)
                | None => None
                end).

(** A hook keeps to its own object: it is entered on a live object and
    leaves it alive, changes no other object, and reports no deletion. *)
Definition hook_local (a : addr -> M unit) : Prop :=
  forall p w w',
    a p w = Some (tt, w') ->
    is_Some (heap w !! p) /\ is_Some (heap w' !! p) /\
    (forall q, q <> p -> heap w' !! q = heap w !! q) /\
    exists es, trace w' = trace w ++ es /\ deleted es = [].

(** Column [i] of row [j] lies in the rectangle [(left, top, width, height)]. *)
Definition in_rect (left top width height i j : Z) : bool :=
  (left <=? i) && (i <? left + width) && (top <=? j) && (j <? top + height).

(** ** The test against an arbitrary backend

    [basic_transfer_test] reaches the backend through [gpu->transferPixels]
    and [gpu->readPixels] only.  Here the two are parameters, and so is the
    type of the textures. *)
Section Backend.
Variable Tex : Type.
Variable transferPixels :
  Tex -> Z -> Z -> Z -> Z -> GrGpu.GrColorType -> (Z -> Z) -> Z -> Z -> bool * Tex.
Variable readPixels :
  Tex -> GrSurfaceOrigin -> Z -> Z -> Z -> Z -> GrGpu.GrColorType -> (Z -> Z) -> Z ->
  bool * (Z -> Z).

Definition transfer_pass_on (colorType : GrGpu.GrColorType) (origin : GrSurfaceOrigin)
    (tex : Tex) (b : TestBuffers) : list bool * TestBuffers :=
  let rowBytes := kBufferWidth * sizeof_GrColor in
  let size := rowBytes * kBufferHeight in
  (* transfer full data *)
  let '(result1, tex1) :=
    transferPixels tex 0 0 kTextureWidth kTextureHeight colorType (buffer b) 0 rowBytes in
  let dst1 := memset (dstBuffer b) 52685 size in
  let '(result2, dst2) :=
    readPixels tex1 origin 0 0 kTextureWidth kTextureHeight colorType dst1 rowBytes in
  let check2 :=
    if result2
    then does_full_buffer_contain_correct_values (srcBuffer b) (colors_of_bytes dst2)
           kTextureWidth kTextureHeight kBufferWidth kBufferHeight origin
    else true in
  (* transfer partial data *)
  let srcBuffer' := fill_transfer_data kLeft kTop kWidth kHeight kBufferWidth (srcBuffer b) in
  let buffer' := bytes_of_colors srcBuffer' in
  let offset := sizeof_GrColor * (kTop * kBufferWidth + kLeft) in
  let '(result3, tex2) :=
    transferPixels tex1 kLeft kTop kWidth kHeight colorType buffer' offset rowBytes in
  let dst3 := memset dst2 52685 size in
  let '(result4, dst4) :=
    readPixels tex2 origin 0 0 kTextureWidth kTextureHeight colorType dst3 rowBytes in
  let check4 :=
    if result4
    then does_full_buffer_contain_correct_values srcBuffer' (colors_of_bytes dst4)
           kTextureWidth kTextureHeight kBufferWidth kBufferHeight origin
    else true in
  ([result1; check2; result3; check4], mkTestBuffers srcBuffer' buffer' dst4).

Fixpoint transfer_passes_on (colorType : GrGpu.GrColorType) (origin : GrSurfaceOrigin)
    (texs : list Tex) (b : TestBuffers) : list bool :=
  match texs with
  | [] => []
  | tex :: texs' =>
      let '(asserts, b') := transfer_pass_on colorType origin tex b in
      asserts ++ transfer_passes_on colorType origin texs' b'
  end.

Definition basic_transfer_test_on (texs : list Tex)
    (colorType : GrGpu.GrColorType) (origin : GrSurfaceOrigin)
    (src0 : Z -> GrColor) (dst0 : Z -> Z) : list bool :=
  let src := fill_transfer_data 0 0 kTextureWidth kTextureHeight kBufferWidth src0 in
  transfer_passes_on colorType origin texs (mkTestBuffers src (bytes_of_colors src) dst0).

(** What the context of a run of [TransferPixelsTest] supplies: the textures
    that the passes of a call obtain from [createTexture], which depend on
    the colour type and on the render-target flag, and the contents of the
    buffers the [n]-th call allocates. *)
Record TestContext := mkTestContext {
  createdTextures : GrGpu.GrColorType -> bool -> list Tex;
  freshSrc : nat -> Z -> GrColor;
  freshDst : nat -> Z -> Z
}.

(** [DEF_GPUTEST_FOR_RENDERING_CONTEXTS(TransferPixelsTest, reporter, ctxInfo)]:
    the eight calls of [basic_transfer_test], in order. *)
Definition TransferPixelsTest_on (ctx : TestContext) : list bool :=
  (* RGBA *)
  basic_transfer_test_on (createdTextures ctx GrGpu.kRGBA_8888 false)
    GrGpu.kRGBA_8888 kTopLeft_GrSurfaceOrigin (freshSrc ctx 0) (freshDst ctx 0) ++
  basic_transfer_test_on (createdTextures ctx GrGpu.kRGBA_8888 true)
    GrGpu.kRGBA_8888 kTopLeft_GrSurfaceOrigin (freshSrc ctx 1) (freshDst ctx 1) ++
  basic_transfer_test_on (createdTextures ctx GrGpu.kRGBA_8888 false)
    GrGpu.kRGBA_8888 kBottomLeft_GrSurfaceOrigin (freshSrc ctx 2) (freshDst ctx 2) ++
  basic_transfer_test_on (createdTextures ctx GrGpu.kRGBA_8888 true)
    GrGpu.kRGBA_8888 kBottomLeft_GrSurfaceOrigin (freshSrc ctx 3) (freshDst ctx 3) ++
  (* BGRA *)
  basic_transfer_test_on (createdTextures ctx GrGpu.kBGRA_8888 false)
    GrGpu.kBGRA_8888 kTopLeft_GrSurfaceOrigin (freshSrc ctx 4) (freshDst ctx 4) ++
  basic_transfer_test_on (createdTextures ctx GrGpu.kBGRA_8888 true)
    GrGpu.kBGRA_8888 kTopLeft_GrSurfaceOrigin (freshSrc ctx 5) (freshDst ctx 5) ++
  basic_transfer_test_on (createdTextures ctx GrGpu.kBGRA_8888 false)
    GrGpu.kBGRA_8888 kBottomLeft_GrSurfaceOrigin (freshSrc ctx 6) (freshDst ctx 6) ++
  basic_transfer_test_on (createdTextures ctx GrGpu.kBGRA_8888 true)
    GrGpu.kBGRA_8888 kBottomLeft_GrSurfaceOrigin (freshSrc ctx 7) (freshDst ctx 7).

End Backend.

(** A texture the modelled backend can serve the test with. *)
Definition test_ready (tex : GrGpu.GrTexture) : Prop :=
  GrGpu.canTransfer tex = true /\
  GrGpu.width tex = kTextureWidth /\ GrGpu.height tex = kTextureHeight.

(** The transfer buffer holds the bytes of [srcBuffer], and the entries of
    [srcBuffer] in the texture-sized window are 32-bit values. *)
Definition buffers_staged (b : TestBuffers) : Prop :=
  (forall x, buffer b x = bytes_of_colors (srcBuffer b) x) /\
  (forall i j, 0 <= i < kTextureWidth -> 0 <= j < kTextureHeight ->
     0 <= srcBuffer b (j * kBufferWidth + i) < 2 ^ 32).

(** A context in which every call gets two textures and zeroed memory. *)
Definition test_context : TestContext GrGpu.GrTexture :=
  mkTestContext GrGpu.GrTexture
    (fun _ _ => [test_texture; test_texture]) (fun _ _ => 0) (fun _ _ => 0).

(* ===================================================================== *)
(** * Properties, I: single-precision gradient                            *)
(* ===================================================================== *)

Section Float32Facts.
Import Float32.

Lemma rne_floor_or_succ p q : rne p q = p / q \/ rne p q = p / q + 1.
Proof.
  unfold rne. destruct (2 * (p mod q) ?= q); auto.
  destruct (Z.even (p / q)); auto.
Qed.

Lemma rne_exact m q : 0 < q -> rne (m * q) q = m.
Proof.
  intros Hq. unfold rne.
  rewrite Z.mod_mul, Z.div_mul by lia.
  change (2 * 0) with 0. destruct (Z.compare_spec 0 q); lia.
Qed.

Lemma rne_mono p p' q : 0 < q -> p <= p' -> rne p q <= rne p' q.
Proof.
  intros Hq Hle.
  assert (Hd : p / q <= p' / q) by (apply Z.div_le_mono; lia).
  destruct (Z.eq_dec (p / q) (p' / q)) as [Heq | Hne].
  - assert (Hm : p mod q <= p' mod q).
    { pose proof (Z.div_mod p q ltac:(lia)). pose proof (Z.div_mod p' q ltac:(lia)).
      rewrite Heq in *. lia. }
    unfold rne. rewrite Heq.
    destruct (Z.compare_spec (2 * (p mod q)) q);
      destruct (Z.compare_spec (2 * (p' mod q)) q);
      destruct (Z.even (p' / q)); lia.
  - destruct (rne_floor_or_succ p q) as [-> | ->];
      destruct (rne_floor_or_succ p' q) as [-> | ->]; lia.
Qed.

Lemma rne_le_of_le p q m : 0 < q -> p <= m * q -> rne p q <= m.
Proof.
  intros Hq Hle. rewrite <- (rne_exact m q Hq). now apply rne_mono.
Qed.

Lemma rne_ge_of_ge p q m : 0 < q -> m * q <= p -> m <= rne p q.
Proof.
  intros Hq Hle. rewrite <- (rne_exact m q Hq). now apply rne_mono.
Qed.

(** A converted integer of at least [2^24] lies between the powers of two
    that enclose the integer. *)
Lemma of_int_big_bounds n :
  2 ^ 24 <= n -> 2 ^ Z.log2 n <= of_int n <= 2 ^ (Z.log2 n + 1).
Proof.
  intros Hn. unfold of_int.
  destruct (Z.ltb_spec n (2 ^ 24)) as [? | _]; [lia |].
  assert (Hl : 24 <= Z.log2 n) by (apply Z.log2_le_pow2; lia).
  destruct (Z.log2_spec n ltac:(lia)) as [Hlo Hhi].
  set (s := Z.log2 n - 23) in *.
  assert (Hq : 0 < 2 ^ s) by (apply Z.pow_pos_nonneg; lia).
  assert (E1 : 2 ^ Z.log2 n = 2 ^ 23 * 2 ^ s).
  { rewrite <- Z.pow_add_r by lia. f_equal. lia. }
  assert (E2 : 2 ^ (Z.log2 n + 1) = 2 ^ 24 * 2 ^ s).
  { rewrite <- Z.pow_add_r by lia. f_equal. lia. }
  replace (Z.succ (Z.log2 n)) with (Z.log2 n + 1) in Hhi by lia.
  rewrite E1, E2 in *.
  assert (2 ^ 23 <= rne n (2 ^ s)) by (apply rne_ge_of_ge; lia).
  assert (rne n (2 ^ s) <= 2 ^ 24) by (apply rne_le_of_le; lia).
  split; apply Z.mul_le_mono_nonneg_r; lia.
Qed.

Lemma of_int_mono k n : 0 <= k <= n -> of_int k <= of_int n.
Proof.
  intros [Hk Hkn].
  destruct (Z.ltb_spec k (2 ^ 24)) as [Hks | Hkb].
  - assert (Ek : of_int k = k).
    { unfold of_int. destruct (Z.ltb_spec k (2 ^ 24)); lia. }
    rewrite Ek.
    destruct (Z.ltb_spec n (2 ^ 24)) as [Hns | Hnb].
    + unfold of_int. destruct (Z.ltb_spec n (2 ^ 24)); lia.
    + pose proof (of_int_big_bounds n Hnb) as [Hlo _].
      assert (2 ^ 24 <= 2 ^ Z.log2 n).
      { apply Z.pow_le_mono_r; [lia |]. apply Z.log2_le_pow2; lia. }
      lia.
  - assert (Hnb : 2 ^ 24 <= n) by lia.
    assert (Hll : Z.log2 k <= Z.log2 n) by (apply Z.log2_le_mono; lia).
    destruct (Z.eq_dec (Z.log2 k) (Z.log2 n)) as [Heq | Hne].
    + unfold of_int.
      destruct (Z.ltb_spec k (2 ^ 24)); [lia |].
      destruct (Z.ltb_spec n (2 ^ 24)); [lia |].
      rewrite Heq.
      assert (24 <= Z.log2 n) by (apply Z.log2_le_pow2; lia).
      assert (0 < 2 ^ (Z.log2 n - 23)) by (apply Z.pow_pos_nonneg; lia).
      apply Z.mul_le_mono_nonneg_r; [lia |]. apply rne_mono; lia.
    + pose proof (of_int_big_bounds k Hkb) as [_ Hhi].
      pose proof (of_int_big_bounds n Hnb) as [Hlo _].
      assert (2 ^ (Z.log2 k + 1) <= 2 ^ Z.log2 n) by (apply Z.pow_le_mono_r; lia).
      lia.
Qed.

Lemma of_int_small n : 0 <= n < 2 ^ 24 -> of_int n = n.
Proof.
  intros Hn. unfold of_int. destruct (Z.ltb_spec n (2 ^ 24)); lia.
Qed.

Lemma div_mant_bounds a b :
  0 <= a <= b -> 0 < b -> 0 <= mant (div a b) <= 2 ^ scale (div a b).
Proof.
  intros Ha Hb. unfold div.
  destruct (Z.eqb_spec a 0) as [-> | Hne]; simpl; [lia |].
  set (s := if _ <? _ then _ else _).
  assert (Hp : 0 <= 2 ^ s) by (apply Z.pow_nonneg; lia).
  split.
  - apply rne_ge_of_ge; [lia |]. apply Z.mul_nonneg_nonneg; lia.
  - apply rne_le_of_le; [lia |]. rewrite (Z.mul_comm a). apply Z.mul_le_mono_nonneg_l; lia.
Qed.

Lemma to_uint_mul256_bounds x :
  0 <= mant x <= 2 ^ scale x -> 0 <= to_uint (mul256 x) <= 256.
Proof.
  intros [Hlo Hhi]. unfold to_uint, mul256; simpl.
  destruct (Z.eq_dec (2 ^ scale x) 0) as [E | E].
  - rewrite E. rewrite Z.div_0_r. lia.
  - assert (0 < 2 ^ scale x) by lia. split.
    + apply Z.div_pos; lia.
    + apply Z.div_le_upper_bound; lia.
Qed.

End Float32Facts.

(** The truncated gradient value never exceeds 256: [k/n <= 1] survives the
    three roundings. *)
Lemma gradient_bounds k n : 0 <= k <= n -> 0 < n -> 0 <= gradient k n <= 256.
Proof.
  intros Hk Hn. unfold gradient.
  apply to_uint_mul256_bounds, div_mant_bounds.
  - split.
    + rewrite <- (of_int_small 0) at 1 by (simpl; lia). apply of_int_mono; lia.
    + apply of_int_mono; lia.
  - assert (Float32.of_int 1 <= Float32.of_int n) by (apply of_int_mono; lia).
    rewrite of_int_small in * by (simpl; lia). lia.
Qed.

(** On every width up to 120 the integer model agrees with the IEEE-754
    specification of the Standard Library at binary32, and so it does at the
    far end of the [int] range, where the conversions round. *)
Example gradient_agrees_with_SpecFloat_small :
  forallb (fun n => forallb (fun k => gradient k n =? Float32.sf_gradient k n) (seqZ 0 n))
          (seqZ 1 120) = true.
Proof. vm_compute. reflexivity. Qed.

Example gradient_agrees_with_SpecFloat_large :
  forallb (fun n => forallb (fun k => gradient k n =? Float32.sf_gradient k n)
                            [0; 1; 2; 3; n / 3; n / 2; n - 3; n - 2; n - 1])
          [2147483647; 2147483646; 16777217; 16777219; 33554433; 33554435;
           16777216; 1000000007; 123456789; 2000000001] = true.
Proof. vm_compute. reflexivity. Qed.

(** [256.f * (k / (float)n)] does reach 256 although [k < n]. *)
Example gradient_reaches_256 : gradient 2147483646 2147483647 = 256.
Proof. vm_compute. reflexivity. Qed.

(* ===================================================================== *)
(** * Properties, II: packed colours                                      *)
(* ===================================================================== *)

Lemma testbit_small_high a n k : 0 <= a < 2 ^ n -> 0 <= n <= k -> Z.testbit a k = false.
Proof.
  intros Ha Hk. rewrite <- (Z.mod_small a (2 ^ n)) by lia.
  apply Z.mod_pow2_bits_high; lia.
Qed.

(** Below the shifted operand's lowest bit, [lor] is addition. *)
Lemma lor_shiftl_add a b n :
  0 <= a < 2 ^ n -> 0 <= n -> Z.lor a (Z.shiftl b n) = a + b * 2 ^ n.
Proof.
  intros Ha Hn. rewrite Z.shiftl_mul_pow2 by lia.
  symmetry. apply Z.add_nocarry_lor.
  apply Z.bits_inj'. intros k Hk.
  rewrite Z.land_spec, Z.bits_0.
  destruct (Z.lt_ge_cases k n).
  - rewrite Z.mul_pow2_bits_low by lia. apply andb_false_r.
  - rewrite (testbit_small_high a n k) by lia. reflexivity.
Qed.

Lemma GrColorPackRGBA_sum r g b a :
  0 <= r <= 255 -> 0 <= g <= 255 -> 0 <= b <= 255 -> 0 <= a <= 255 ->
  GrColorPackRGBA r g b a = r + g * 2 ^ 8 + b * 2 ^ 16 + a * 2 ^ 24.
Proof.
  intros Hr Hg Hb Ha. unfold GrColorPackRGBA, GrColor_SHIFT_R, GrColor_SHIFT_G,
    GrColor_SHIFT_B, GrColor_SHIFT_A, u32.
  rewrite Z.shiftl_0_r.
  rewrite (lor_shiftl_add r g 8) by lia.
  rewrite (lor_shiftl_add (r + g * 2 ^ 8) b 16) by lia.
  rewrite (lor_shiftl_add (r + g * 2 ^ 8 + b * 2 ^ 16) a 24) by lia.
  apply Z.mod_small. lia.
Qed.

Lemma unpack_as_div_mod c n :
  0 <= n -> Z.land (Z.shiftr c n) 255 = (c / 2 ^ n) mod 2 ^ 8.
Proof.
  intros Hn. rewrite Z.shiftr_div_pow2 by lia.
  change 255 with (Z.ones 8). apply Z.land_ones. lia.
Qed.

Lemma GrColorUnpack_Pack r g b a :
  0 <= r <= 255 -> 0 <= g <= 255 -> 0 <= b <= 255 -> 0 <= a <= 255 ->
  let c := GrColorPackRGBA r g b a in
  GrColorUnpackR c = r /\ GrColorUnpackG c = g /\
  GrColorUnpackB c = b /\ GrColorUnpackA c = a.
Proof.
  intros Hr Hg Hb Ha c. subst c.
  rewrite GrColorPackRGBA_sum by assumption.
  unfold GrColorUnpackR, GrColorUnpackG, GrColorUnpackB, GrColorUnpackA,
    GrColor_SHIFT_R, GrColor_SHIFT_G, GrColor_SHIFT_B, GrColor_SHIFT_A.
  rewrite !unpack_as_div_mod by lia.
  change (2 ^ 0) with 1. change (2 ^ 8) with 256. change (2 ^ 16) with 65536.
  change (2 ^ 24) with 16777216.
  repeat split.
  - rewrite Z.div_1_r. symmetry; apply Z.mod_unique with (q := g + b * 256 + a * 65536); lia.
  - replace (r + g * 256 + b * 65536 + a * 16777216)
      with (r + (g + b * 256 + a * 65536) * 256) by ring.
    rewrite Z.div_add by lia. rewrite Z.div_small by lia.
    symmetry; apply Z.mod_unique with (q := b + a * 256); lia.
  - replace (r + g * 256 + b * 65536 + a * 16777216)
      with (r + g * 256 + (b + a * 256) * 65536) by ring.
    rewrite Z.div_add by lia. rewrite Z.div_small by lia.
    symmetry; apply Z.mod_unique with (q := a); lia.
  - rewrite Z.div_add by lia. rewrite Z.div_small by lia.
    apply Z.mod_small; lia.
Qed.

(** [x - (x >> 8)] folds the one out-of-range value 256 back to 255. *)
Lemma fold_256 x : 0 <= x <= 256 -> 0 <= u32 (x - Z.shiftr x 8) <= 255.
Proof.
  intros Hx. rewrite Z.shiftr_div_pow2 by lia. change (2 ^ 8) with 256.
  unfold u32. destruct (Z.eq_dec x 256) as [-> | Hne].
  - vm_compute. split; discriminate.
  - rewrite (Z.div_small x 256) by lia. rewrite Z.mod_small; lia.
Qed.

(* ===================================================================== *)
(** * Properties, III: fill_transfer_data                                 *)
(* ===================================================================== *)

Section FillTransferData.
Variables left top width height bufferWidth : Z.

(** What one row of the gradient leaves at an arbitrary offset: either the
    offset was not hit and keeps its value, or it holds the colour of one
    of the columns that hit it. *)
Lemma fill_row_cases (cols : list Z) (j : Z) (data : Z -> GrColor) (idx : Z) :
  let data' := foldl (fill_pixel left top width height bufferWidth j) data cols in
  (data' idx = data idx /\ forall i, i ∈ cols -> i + j * bufferWidth <> idx) \/
  (exists i, i ∈ cols /\ i + j * bufferWidth = idx /\ data' idx = gradient_color left top width height i j).
Proof.
  revert data. induction cols as [| i cols IH]; intros data; simpl.
  - left. split; [reflexivity |]. intros i Hi. inversion Hi.
  - destruct (IH (fill_pixel left top width height bufferWidth j data i))
      as [[Heq Hno] | (i' & Hin & Hidx & Hval)].
    + assert (Hs : fill_pixel left top width height bufferWidth j data i idx =
                   if idx =? i + j * bufferWidth then gradient_color left top width height i j else data idx)
        by reflexivity.
      rewrite Hs in Heq. clear Hs.
      destruct (Z.eqb_spec idx (i + j * bufferWidth)) as [E | E].
      * right. exists i. split; [left |]. split; [lia |]. exact Heq.
      * left. split; [exact Heq |].
        intros i0 Hi0. apply elem_of_cons in Hi0 as [-> | Hi0]; [lia | auto].
    + right. exists i'. split; [right; exact Hin |]. split; assumption.
Qed.

Lemma fill_rows_cases (cols rows : list Z) (data : Z -> GrColor) (idx : Z) :
  let row := fun d j => foldl (fill_pixel left top width height bufferWidth j) d cols in
  let data' := foldl row data rows in
  (data' idx = data idx /\
   forall i j, i ∈ cols -> j ∈ rows -> i + j * bufferWidth <> idx) \/
  (exists i j, i ∈ cols /\ j ∈ rows /\ i + j * bufferWidth = idx /\
               data' idx = gradient_color left top width height i j).
Proof.
  revert data. induction rows as [| j rows IH]; intros data; simpl.
  - left. split; [reflexivity |]. intros i j _ Hj. inversion Hj.
  - destruct (IH (foldl (fill_pixel left top width height bufferWidth j) data cols))
      as [[Heq Hno] | (i' & j' & Hi & Hj & Hidx & Hval)].
    + destruct (fill_row_cases cols j data idx) as [[Heq' Hno'] | (i' & Hi & Hidx & Hval)].
      * left. split; [simpl in *; congruence |].
        intros i0 j0 Hi0 Hj0. apply elem_of_cons in Hj0 as [-> | Hj0]; auto.
      * right. exists i', j. split; [exact Hi |]. split; [left |].
        split; [exact Hidx |]. simpl in *. congruence.
    + right. exists i', j'. split; [exact Hi |]. split; [right; exact Hj |].
      split; assumption.
Qed.

Lemma fill_transfer_data_cases (data : Z -> GrColor) (idx : Z) :
  let data' := fill_transfer_data left top width height bufferWidth data in
  (data' idx = data idx /\
   forall i j, left <= i < left + width -> top <= j < top + height ->
               i + j * bufferWidth <> idx) \/
  (exists i j, left <= i < left + width /\ top <= j < top + height /\
               i + j * bufferWidth = idx /\ data' idx = gradient_color left top width height i j).
Proof.
  destruct (fill_rows_cases (seqZ left width) (seqZ top height) data idx)
    as [[Heq Hno] | (i & j & Hi & Hj & Hidx & Hval)].
  - left. split; [exact Heq |].
    intros i j Hi Hj. apply Hno; apply elem_of_seqZ; lia.
  - right. exists i, j. apply elem_of_seqZ in Hi, Hj.
    repeat split; try lia; assumption.
Qed.

(** The colour of a pixel inside the rectangle. *)
Lemma gradient_color_channels i j :
  left <= i < left + width -> top <= j < top + height ->
  exists r g, 0 <= r <= 255 /\ 0 <= g <= 255 /\
              gradient_color left top width height i j = GrColorPackRGBA r g 255 255.
Proof.
  intros Hi Hj. unfold gradient_color.
  eexists _, _. split; [| split; [| reflexivity]].
  - apply fold_256, gradient_bounds; lia.
  - apply fold_256, gradient_bounds; lia.
Qed.

End FillTransferData.

(* ===================================================================== *)
(** * Properties, IV: does_full_buffer_contain_correct_values             *)
(* ===================================================================== *)


Lemma row_matches_spec src dst srcPtr dstPtr cols :
  row_matches src dst srcPtr dstPtr cols = true <->
  forall i, i ∈ cols -> src (srcPtr + i) = dst (dstPtr + i).
Proof.
  induction cols as [| i cols IH]; simpl.
  - split; [intros _ i Hi; inversion Hi | reflexivity].
  - destruct (Z.eqb_spec (src (srcPtr + i)) (dst (dstPtr + i))) as [E | E]; simpl.
    + rewrite IH. split.
      * intros Hall i0 Hi0. apply elem_of_cons in Hi0 as [-> | Hi0]; auto.
      * intros Hall i0 Hi0. apply Hall. now right.
    + split; [discriminate |]. intros Hall. exfalso. apply E, Hall. now left.
Qed.

Lemma rows_match_spec src dst width bufferWidth dstIncrement rows :
  forall srcPtr dstPtr,
  rows_match src dst width bufferWidth dstIncrement srcPtr dstPtr rows = true <->
  forall (k : nat) i, (k < length rows)%nat -> 0 <= i < width ->
    src (srcPtr + Z.of_nat k * bufferWidth + i) =
    dst (dstPtr + Z.of_nat k * dstIncrement + i).
Proof.
  induction rows as [| r rows IH]; intros srcPtr dstPtr; simpl.
  - split; [intros _ k i Hk; lia | reflexivity].
  - destruct (row_matches src dst srcPtr dstPtr (seqZ 0 width)) eqn:Hrow.
    + rewrite row_matches_spec in Hrow. rewrite IH. split.
      * intros Hall [| k] i Hk Hi.
        -- rewrite !Z.mul_0_l, !Z.add_0_r. apply Hrow, elem_of_seqZ. lia.
        -- specialize (Hall k i ltac:(lia) Hi).
           replace (srcPtr + Z.of_nat (S k) * bufferWidth)
             with (srcPtr + bufferWidth + Z.of_nat k * bufferWidth) by lia.
           replace (dstPtr + Z.of_nat (S k) * dstIncrement)
             with (dstPtr + dstIncrement + Z.of_nat k * dstIncrement) by lia.
           exact Hall.
      * intros Hall k i Hk Hi. specialize (Hall (S k) i ltac:(lia) Hi).
        replace (srcPtr + Z.of_nat (S k) * bufferWidth)
          with (srcPtr + bufferWidth + Z.of_nat k * bufferWidth) in Hall by lia.
        replace (dstPtr + Z.of_nat (S k) * dstIncrement)
          with (dstPtr + dstIncrement + Z.of_nat k * dstIncrement) in Hall by lia.
        exact Hall.
    + split; [discriminate |]. intros Hall.
      assert (Hrow' : row_matches src dst srcPtr dstPtr (seqZ 0 width) = true).
      { apply row_matches_spec. intros i Hi. apply elem_of_seqZ in Hi.
        specialize (Hall 0%nat i ltac:(lia) ltac:(lia)).
        rewrite !Z.mul_0_l, !Z.add_0_r in Hall. exact Hall. }
      congruence.
Qed.

Lemma does_full_buffer_iff src dst width height bufferWidth bufferHeight origin :
  does_full_buffer_contain_correct_values src dst width height
    bufferWidth bufferHeight origin = true <->
  forall i j, 0 <= i < width -> 0 <= j < height ->
    src (j * bufferWidth + i) = dst (compared_dst_index bufferWidth bufferHeight origin i j).
Proof.
  unfold does_full_buffer_contain_correct_values.
  rewrite rows_match_spec, length_seqZ. split.
  - intros Hall i j Hi Hj.
    specialize (Hall (Z.to_nat j) i ltac:(lia) Hi).
    rewrite Z2Nat.id in Hall by lia.
    destruct origin; simpl in *;
      (etransitivity; [| etransitivity; [exact Hall |]]; f_equal; lia).
  - intros Hall k i Hk Hi.
    specialize (Hall i (Z.of_nat k) Hi ltac:(lia)).
    destruct origin; simpl in *;
      (etransitivity; [| etransitivity; [exact Hall |]]; f_equal; lia).
Qed.

(** The verdict depends on the compared entries alone. *)
Lemma does_full_buffer_ext src dst src' dst' width height bufferWidth bufferHeight origin :
  (forall i j, 0 <= i < width -> 0 <= j < height ->
     src' (j * bufferWidth + i) = src (j * bufferWidth + i)) ->
  (forall i j, 0 <= i < width -> 0 <= j < height ->
     dst' (compared_dst_index bufferWidth bufferHeight origin i j) =
     dst (compared_dst_index bufferWidth bufferHeight origin i j)) ->
  does_full_buffer_contain_correct_values src' dst' width height
    bufferWidth bufferHeight origin =
  does_full_buffer_contain_correct_values src dst width height
    bufferWidth bufferHeight origin.
Proof.
  intros Hs Hd. apply eq_true_iff_eq. rewrite !does_full_buffer_iff.
  split; intros Hall i j Hi Hj; specialize (Hall i j Hi Hj);
    rewrite ?Hs, ?Hd in * by assumption; congruence.
Qed.

(** Distinct cells of a [bufferWidth]-wide grid have distinct offsets. *)
Lemma grid_offset_inj bufferWidth i j i' j' :
  0 <= i < bufferWidth -> 0 <= i' < bufferWidth ->
  j * bufferWidth + i = j' * bufferWidth + i' -> i = i' /\ j = j'.
Proof.
  intros Hi Hi' E.
  assert (Hj : j = j') by nia. subst j'. split; lia.
Qed.

(** Entries of the padding columns and of the rows past [height] can be
    overwritten at will. *)
Lemma does_full_buffer_padding src dst width height bufferWidth bufferHeight origin
    i' j' v :
  width <= bufferWidth -> 0 <= i' < bufferWidth ->
  width <= i' \/ j' < 0 \/ height <= j' ->
  does_full_buffer_contain_correct_values
    (store src (j' * bufferWidth + i') v) dst width height
    bufferWidth bufferHeight origin =
  does_full_buffer_contain_correct_values src dst width height
    bufferWidth bufferHeight origin /\
  does_full_buffer_contain_correct_values
    src (store dst (compared_dst_index bufferWidth bufferHeight origin i' j') v)
    width height bufferWidth bufferHeight origin =
  does_full_buffer_contain_correct_values src dst width height
    bufferWidth bufferHeight origin.
Proof.
  intros Hw Hi' Hout. split; apply does_full_buffer_ext; try reflexivity.
  - intros i j Hi Hj. unfold store.
    destruct (Z.eqb_spec (j * bufferWidth + i) (j' * bufferWidth + i')) as [E | E];
      [| reflexivity].
    apply grid_offset_inj in E; lia.
  - intros i j Hi Hj. unfold store.
    destruct (Z.eqb_spec (compared_dst_index bufferWidth bufferHeight origin i j)
                         (compared_dst_index bufferWidth bufferHeight origin i' j'))
      as [E | E]; [| reflexivity].
    destruct origin; simpl in E; apply grid_offset_inj in E; lia.
Qed.

(** C9. [does_full_buffer_contain_correct_values] returns true exactly when,
    for every column [0 <= i < width] and row [0 <= j < height],
    [src[j*bufferWidth + i]] equals [dst[j*bufferWidth + i]] for a top-left
    origin and [dst[(bufferHeight - 1 - j)*bufferWidth + i]] for a
    bottom-left origin: the mirror is anchored at [bufferHeight].  Entries
    other than the compared ones never influence the verdict; in a buffer
    whose rows do not overlap these are the entries of columns [i >= width]
    and of rows [j >= height], rows of [dst] being counted from the mirror
    row when the origin is bottom-left. *)
Theorem does_full_buffer_contain_correct_values_spec
    (src dst : Z -> GrColor) (width height bufferWidth bufferHeight : Z)
    (origin : GrSurfaceOrigin) :
  (does_full_buffer_contain_correct_values src dst width height
     bufferWidth bufferHeight origin = true <->
   forall i j, 0 <= i < width -> 0 <= j < height ->
     src (j * bufferWidth + i) =
     dst (match origin with
          | kTopLeft_GrSurfaceOrigin => j * bufferWidth + i
          | kBottomLeft_GrSurfaceOrigin => (bufferHeight - 1 - j) * bufferWidth + i
          end)) /\
  (forall src' dst',
     (forall i j, 0 <= i < width -> 0 <= j < height ->
        src' (j * bufferWidth + i) = src (j * bufferWidth + i)) ->
     (forall i j, 0 <= i < width -> 0 <= j < height ->
        dst' (compared_dst_index bufferWidth bufferHeight origin i j) =
        dst (compared_dst_index bufferWidth bufferHeight origin i j)) ->
     does_full_buffer_contain_correct_values src' dst' width height
       bufferWidth bufferHeight origin =
     does_full_buffer_contain_correct_values src dst width height
       bufferWidth bufferHeight origin) /\
  (forall i' j' v,
     width <= bufferWidth -> 0 <= i' < bufferWidth ->
     width <= i' \/ height <= j' ->
     does_full_buffer_contain_correct_values
       (store src (j' * bufferWidth + i') v) dst width height
       bufferWidth bufferHeight origin =
     does_full_buffer_contain_correct_values src dst width height
       bufferWidth bufferHeight origin /\
     does_full_buffer_contain_correct_values
       src (store dst (compared_dst_index bufferWidth bufferHeight origin i' j') v)
       width height bufferWidth bufferHeight origin =
     does_full_buffer_contain_correct_values src dst width height
       bufferWidth bufferHeight origin).
Proof.
  split; [| split].
  - rewrite does_full_buffer_iff. unfold compared_dst_index. reflexivity.
  - intros src' dst'. apply does_full_buffer_ext.
  - intros i' j' v Hw Hi' Hout. apply does_full_buffer_padding; tauto.
Qed.

(** The mirror row is [bufferHeight - 1], whatever [height] is: with one
    compared row in a three-row buffer, row 0 of [src] meets row 2 of [dst]. *)
Example mirror_anchored_at_bufferHeight :
  does_full_buffer_contain_correct_values
    (fun _ => 7) (fun x => if x =? 2 then 7 else 0) 1 1 1 3
    kBottomLeft_GrSurfaceOrigin = true /\
  does_full_buffer_contain_correct_values
    (fun _ => 7) (fun x => if x =? 0 then 7 else 0) 1 1 1 3
    kBottomLeft_GrSurfaceOrigin = false.
Proof. split; reflexivity. Qed.

(** C10. [fill_transfer_data] writes only the entries [data[i + j*bufferWidth]]
    with [left <= i < left+width] and [top <= j < top+height]: any other
    entry keeps its value.  Every entry written is a colour packed from
    red and green arguments between 0 and 255 and from blue = alpha = 0xff,
    so its blue and alpha channels read 0xff and its red and green channels
    lie in 0..255.  When the rows of the buffer do not overlap, the entry
    holds the gradient colour of its own column and row. *)
Theorem fill_transfer_data_frame_and_channels
    (left top width height bufferWidth : Z) (data : Z -> GrColor) :
  (forall idx,
     (forall i j, left <= i < left + width -> top <= j < top + height ->
                  idx <> i + j * bufferWidth) ->
     fill_transfer_data left top width height bufferWidth data idx = data idx) /\
  (forall i j, left <= i < left + width -> top <= j < top + height ->
     let c := fill_transfer_data left top width height bufferWidth data
                (i + j * bufferWidth) in
     (exists r g, 0 <= r <= 255 /\ 0 <= g <= 255 /\
                  c = GrColorPackRGBA r g 255 255 /\
                  GrColorUnpackR c = r /\ GrColorUnpackG c = g) /\
     GrColorUnpackB c = 255 /\ GrColorUnpackA c = 255 /\
     0 <= GrColorUnpackR c <= 255 /\ 0 <= GrColorUnpackG c <= 255) /\
  (forall i j, left <= i < left + width -> top <= j < top + height ->
     width <= bufferWidth ->
     fill_transfer_data left top width height bufferWidth data (i + j * bufferWidth) =
     gradient_color left top width height i j).
Proof.
  split; [| split].
  - intros idx Hout.
    destruct (fill_transfer_data_cases left top width height bufferWidth data idx)
      as [[Heq _] | (i & j & Hi & Hj & Hidx & _)]; [exact Heq |].
    exfalso. apply (Hout i j Hi Hj). lia.
  - intros i j Hi Hj c.
    destruct (fill_transfer_data_cases left top width height bufferWidth data
                (i + j * bufferWidth))
      as [[_ Hno] | (i' & j' & Hi' & Hj' & _ & Hval)].
    { exfalso. now apply (Hno i j Hi Hj). }
    destruct (gradient_color_channels left top width height i' j' Hi' Hj')
      as (r & g & Hr & Hg & Hc).
    assert (Ec : c = GrColorPackRGBA r g 255 255) by (subst c; congruence).
    destruct (GrColorUnpack_Pack r g 255 255 Hr Hg ltac:(lia) ltac:(lia))
      as (UR & UG & UB & UA).
    rewrite <- Ec in UR, UG, UB, UA.
    split; [exists r, g; tauto |]. rewrite UR, UG, UB, UA. lia.
  - intros i j Hi Hj Hw.
    destruct (fill_transfer_data_cases left top width height bufferWidth data
                (i + j * bufferWidth))
      as [[_ Hno] | (i' & j' & Hi' & Hj' & Hidx & Hval)].
    { exfalso. now apply (Hno i j Hi Hj). }
    assert (Hjj : j' = j) by nia.
    subst j'. assert (i' = i) by lia. subst i'. exact Hval.
Qed.

(* ===================================================================== *)
(** * Properties, V: the cache-access gate                                *)
(* ===================================================================== *)

Section GateFacts.
Import GrGpuResource CacheAccess.
Context {H : Members}.


Lemma release_eq (ca : CacheAccess.t) (w : World) (r : GrGpuResource.t) :
  heap w !! fResource ca = Some r ->
  release ca w =
  Some (tt, torn_down (fResource ca) (EvRelease (fResource ca))
                      (fst (hook_release r)) (snd (hook_release r)) w).
Proof.
  intros Hr. unfold release, resource_release, resource_isPurgeable, torn_down,
    bind, deref, emit, modify, ret, SkDELETE. simpl.
  rewrite Hr. simpl. rewrite Hr. simpl. rewrite lookup_insert_eq.
  destruct (isPurgeable (fst (hook_release r))); simpl.
  - rewrite lookup_insert_eq. rewrite delete_insert_eq, <- app_assoc. reflexivity.
  - reflexivity.
Qed.

Lemma abandon_eq (ca : CacheAccess.t) (w : World) (r : GrGpuResource.t) :
  heap w !! fResource ca = Some r ->
  abandon ca w =
  Some (tt, torn_down (fResource ca) (EvAbandon (fResource ca))
                      (fst (hook_abandon r)) (snd (hook_abandon r)) w).
Proof.
  intros Hr. unfold abandon, resource_abandon, resource_isPurgeable, torn_down,
    bind, deref, emit, modify, ret, SkDELETE. simpl.
  rewrite Hr. simpl. rewrite Hr. simpl. rewrite lookup_insert_eq.
  destruct (isPurgeable (fst (hook_abandon r))); simpl.
  - rewrite lookup_insert_eq. rewrite delete_insert_eq, <- app_assoc. reflexivity.
  - reflexivity.
Qed.

Lemma torn_down_lookup p ev r' calls w :
  (heap (torn_down p ev r' calls w) !! p = None <-> isPurgeable r' = true) /\
  (isPurgeable r' = false -> heap (torn_down p ev r' calls w) !! p = Some r') /\
  (forall q, q <> p -> heap (torn_down p ev r' calls w) !! q = heap w !! q).
Proof.
  unfold torn_down. destruct (isPurgeable r'); simpl.
  - rewrite lookup_delete_eq. repeat split; try discriminate.
    intros q Hq. now rewrite lookup_delete_ne.
  - rewrite lookup_insert_eq. repeat split; try discriminate; try reflexivity.
    intros q Hq. now rewrite lookup_insert_ne.
Qed.

Lemma torn_down_trace p ev r' calls w :
  exists es, trace (torn_down p ev r' calls w) = trace w ++ ev :: es /\
             (EvDelete p ∈ es <-> isPurgeable r' = true) /\
             (forall q, q <> p -> EvDelete q ∉ es) /\
             (forall q, EvRelease q ∉ es) /\ (forall q, EvAbandon q ∉ es) /\
             (forall c, EvDriver c ∈ es <-> c ∈ calls).
Proof.
  assert (Hmap : forall e, e ∈ map EvDriver calls -> exists c, e = EvDriver c /\ c ∈ calls).
  { intros e He. apply list_elem_of_In, in_map_iff in He as (c & <- & Hc).
    exists c. split; [reflexivity |]. now apply list_elem_of_In. }
  assert (Hdrv : forall c, EvDriver c ∈ map EvDriver calls <-> c ∈ calls).
  { intros c. split.
    - intros He. apply Hmap in He as (c' & E & Hc). now inversion E.
    - intros Hc. apply list_elem_of_In, in_map, list_elem_of_In. exact Hc. }
  unfold torn_down. destruct (isPurgeable r'); simpl.
  - exists (map EvDriver calls ++ [EvDelete p]). split; [reflexivity |].
    split; [| split; [| split; [| split]]].
    + split; [reflexivity |]. intros _. apply elem_of_app. right. now left.
    + intros q Hq Hin. apply elem_of_app in Hin as [Hin | Hin].
      * apply Hmap in Hin as (c & E & _). discriminate.
      * apply list_elem_of_singleton in Hin. congruence.
    + intros q Hin. apply elem_of_app in Hin as [Hin | Hin].
      * apply Hmap in Hin as (c & E & _). discriminate.
      * apply list_elem_of_singleton in Hin. discriminate.
    + intros q Hin. apply elem_of_app in Hin as [Hin | Hin].
      * apply Hmap in Hin as (c & E & _). discriminate.
      * apply list_elem_of_singleton in Hin. discriminate.
    + intros c. rewrite elem_of_app, Hdrv. split; [| tauto].
      intros [Hc | Hc]; [exact Hc |]. apply list_elem_of_singleton in Hc. discriminate.
  - exists (map EvDriver calls). split; [reflexivity |].
    split; [| split; [| split; [| split]]].
    + split; [| discriminate]. intros Hin. apply Hmap in Hin as (c & E & _). discriminate.
    + intros q _ Hin. apply Hmap in Hin as (c & E & _). discriminate.
    + intros q Hin. apply Hmap in Hin as (c & E & _). discriminate.
    + intros q Hin. apply Hmap in Hin as (c & E & _). discriminate.
    + exact Hdrv.
Qed.

End GateFacts.

Section GateTheorems.
Import GrGpuResource CacheAccess.

(** C1. A teardown through the gate, [release()] or [abandon()], destroys
    the resource object exactly when [isPurgeable()] holds of the object
    right after its teardown hook has run.  A resource that is not
    purgeable then is not deleted by the gate: it stays in the heap, in
    the state its hook left it in, for its remaining holders; no other
    object is touched or deleted. *)
Theorem gate_destroys_iff_purgeable {H : Members}
    (ca : CacheAccess.t) (w : World) (r : GrGpuResource.t) :
  heap w !! fResource ca = Some r ->
  (exists w',
     release ca w = Some (tt, w') /\
     (heap w' !! fResource ca = None <-> isPurgeable (fst (hook_release r)) = true) /\
     (isPurgeable (fst (hook_release r)) = false ->
      heap w' !! fResource ca = Some (fst (hook_release r))) /\
     (forall q, q <> fResource ca -> heap w' !! q = heap w !! q) /\
     (exists es,
        trace w' = trace w ++ EvRelease (fResource ca) :: es /\
        (EvDelete (fResource ca) ∈ es <-> isPurgeable (fst (hook_release r)) = true) /\
        (forall q, q <> fResource ca -> EvDelete q ∉ es))) /\
  (exists w',
     abandon ca w = Some (tt, w') /\
     (heap w' !! fResource ca = None <-> isPurgeable (fst (hook_abandon r)) = true) /\
     (isPurgeable (fst (hook_abandon r)) = false ->
      heap w' !! fResource ca = Some (fst (hook_abandon r))) /\
     (forall q, q <> fResource ca -> heap w' !! q = heap w !! q) /\
     (exists es,
        trace w' = trace w ++ EvAbandon (fResource ca) :: es /\
        (EvDelete (fResource ca) ∈ es <-> isPurgeable (fst (hook_abandon r)) = true) /\
        (forall q, q <> fResource ca -> EvDelete q ∉ es))).
Proof.
  intros Hr. split.
  - eexists. split; [apply (release_eq ca w r Hr) |].
    destruct (torn_down_lookup (fResource ca) (EvRelease (fResource ca))
                (fst (hook_release r)) (snd (hook_release r)) w) as (L1 & L2 & L3).
    destruct (torn_down_trace (fResource ca) (EvRelease (fResource ca))
                (fst (hook_release r)) (snd (hook_release r)) w)
      as (es & T1 & T2 & T3 & _).
    repeat split; try apply L1; try exact L2; try exact L3.
    exists es. repeat split; try apply T2; assumption.
  - eexists. split; [apply (abandon_eq ca w r Hr) |].
    destruct (torn_down_lookup (fResource ca) (EvAbandon (fResource ca))
                (fst (hook_abandon r)) (snd (hook_abandon r)) w) as (L1 & L2 & L3).
    destruct (torn_down_trace (fResource ca) (EvAbandon (fResource ca))
                (fst (hook_abandon r)) (snd (hook_abandon r)) w)
      as (es & T1 & T2 & T3 & _).
    repeat split; try apply L1; try exact L2; try exact L3.
    exists es. repeat split; try apply T2; assumption.
Qed.

(** C2. [isScratch()] is the conjunction (no valid content key) and (valid
    scratch key) and (budgeted) of the fields the resource has at the
    moment of the call; it reads them and leaves the world as it is.  As
    nothing is stored, the equation holds in the world before and in the
    world after any sequence of gate operations; the writes the gate itself
    offers, to the timestamp and to the cache index, leave the verdict as
    it was. *)
Theorem isScratch_derived_from_fields {H : Members}
    (ca : CacheAccess.t) (w : World) (r : GrGpuResource.t) :
  heap w !! fResource ca = Some r ->
  isScratch ca w =
    Some (negb (isValid (fContentKey r)) && isValid (fScratchKey r) && fBudgeted r, w) /\
  (forall ops w' r',
     run_ops ops w = Some (tt, w') ->
     heap w' !! fResource ca = Some r' ->
     isScratch ca w' =
       Some (negb (isValid (fContentKey r')) && isValid (fScratchKey r') && fBudgeted r',
             w')) /\
  (forall ts i, exists w1 w2,
     setTimestamp ca ts w = Some (tt, w1) /\
     accessCacheIndex_store ca i w = Some (tt, w2) /\
     fst <$> isScratch ca w1 = fst <$> isScratch ca w /\
     fst <$> isScratch ca w2 = fst <$> isScratch ca w).
Proof.
  assert (Hgen : forall w0 r0, heap w0 !! fResource ca = Some r0 ->
            isScratch ca w0 =
            Some (negb (isValid (fContentKey r0)) && isValid (fScratchKey r0) &&
                  fBudgeted r0, w0)).
  { intros w0 r0 Hr0. unfold isScratch, bind, deref, ret. rewrite Hr0. reflexivity. }
  intros Hr. split; [now apply Hgen |]. split.
  - intros ops w' r' _ Hr'. now apply Hgen.
  - intros ts i. unfold setTimestamp, accessCacheIndex_store, modify. rewrite Hr.
    eexists _, _. split; [reflexivity |]. split; [reflexivity |].
    rewrite (Hgen w r Hr).
    split.
    + erewrite Hgen by (simpl; apply lookup_insert_eq). reflexivity.
    + erewrite Hgen by (simpl; apply lookup_insert_eq). reflexivity.
Qed.

(** C7. [abandon()] enters the resource's device-lost hook and never its
    release hook; the only driver calls in its wake are those the hook
    itself makes, and the device-lost hook of the spec makes none.  The
    object is then destroyed under the same rule as in [release()]:
    exactly when it is purgeable after the hook. *)
Theorem abandon_uses_device_lost_hook {H : Members}
    (ca : CacheAccess.t) (w : World) (r : GrGpuResource.t) :
  heap w !! fResource ca = Some r ->
  (exists w' es,
     abandon ca w = Some (tt, w') /\
     trace w' = trace w ++ EvAbandon (fResource ca) :: es /\
     (forall q, EvRelease q ∉ es) /\
     (forall c, EvDriver c ∈ es <-> c ∈ snd (hook_abandon r)) /\
     (EvDelete (fResource ca) ∈ es <-> isPurgeable (fst (hook_abandon r)) = true) /\
     (heap w' !! fResource ca = None <-> isPurgeable (fst (hook_abandon r)) = true) /\
     (exists w1, release ca w = Some (tt, w1) /\
        (heap w1 !! fResource ca = None <-> isPurgeable (fst (hook_release r)) = true))) /\
  snd (spec_abandon r) = [] /\
  (exists w' es,
     @abandon spec_members ca w = Some (tt, w') /\
     trace w' = trace w ++ EvAbandon (fResource ca) :: es /\
     (forall c, EvDriver c ∉ es) /\ (forall q, EvRelease q ∉ es)).
Proof.
  intros Hr. split; [| split].
  - destruct (torn_down_trace (fResource ca) (EvAbandon (fResource ca))
                (fst (hook_abandon r)) (snd (hook_abandon r)) w)
      as (es & T1 & T2 & _ & T4 & _ & T6).
    eexists _, es. split; [apply (abandon_eq ca w r Hr) |].
    split; [exact T1 |]. split; [exact T4 |]. split; [exact T6 |].
    split; [exact T2 |]. split; [apply torn_down_lookup |].
    eexists. split; [apply (release_eq ca w r Hr) |]. apply torn_down_lookup.
  - reflexivity.
  - destruct (@torn_down_trace spec_members (fResource ca) (EvAbandon (fResource ca))
                (fst (spec_abandon r)) (snd (spec_abandon r)) w)
      as (es & T1 & _ & _ & T4 & _ & T6).
    eexists _, es. split; [apply (@abandon_eq spec_members ca w r Hr) |].
    split; [exact T1 |]. split; [| exact T4].
    intros c Hc. apply T6 in Hc. simpl in Hc. inversion Hc.
Qed.

End GateTheorems.

(* ===================================================================== *)
(** * Properties, VI: the transfer-buffer protocol                        *)
(* ===================================================================== *)

Section TransferFacts.
Import GrGpu.

Lemma contains_spec tw th x y w h :
  contains tw th x y w h = true <->
  0 <= x /\ 0 <= y /\ 0 <= w /\ 0 <= h /\ x + w <= tw /\ y + h <= th.
Proof.
  unfold contains. rewrite !andb_true_iff, !Z.leb_le. tauto.
Qed.

Lemma transferPixels_ok tex x y w h ct buffer offset rowBytes :
  canTransfer tex = true -> contains (width tex) (height tex) x y w h = true ->
  transferPixels tex x y w h ct buffer offset rowBytes =
  (true,
   mkTexture (width tex) (height tex) (canTransfer tex) (canRead tex)
     (fun r c =>
        if (y <=? r) && (r <? y + h) &&
           (bytesPerPixel ct * x <=? c) && (c <? bytesPerPixel ct * (x + w))
        then buffer (offset + (r - y) * rowBytes + (c - bytesPerPixel ct * x))
        else texels tex r c)).
Proof.
  intros Hc Hin. unfold transferPixels. rewrite Hc, Hin. reflexivity.
Qed.

Lemma transferPixels_fails tex x y w h ct buffer offset rowBytes :
  canTransfer tex = false \/ contains (width tex) (height tex) x y w h = false ->
  transferPixels tex x y w h ct buffer offset rowBytes = (false, tex).
Proof.
  intros [Hc | Hc]; unfold transferPixels; rewrite Hc; simpl;
    [| rewrite orb_true_r]; reflexivity.
Qed.

(** What the rows written so far leave at byte [b] of the output. *)
Lemma write_rows_cases tex origin x y n rowBytes rows out b :
  let out' := foldl (write_row tex origin x y n rowBytes) out rows in
  (out' b = out b /\
   forall j, j ∈ rows -> ~ (j * rowBytes <= b < j * rowBytes + n)) \/
  (exists j, j ∈ rows /\ j * rowBytes <= b < j * rowBytes + n /\
             out' b = texels tex (physicalRow tex origin (y + j)) (x + (b - j * rowBytes))).
Proof.
  revert out. induction rows as [| j rows IH]; intros out; simpl.
  - left. split; [reflexivity |]. intros j Hj. inversion Hj.
  - destruct (IH (write_row tex origin x y n rowBytes out j))
      as [[Heq Hno] | (j' & Hj' & Hspan & Hval)].
    + assert (Hw : write_row tex origin x y n rowBytes out j b =
                   if (j * rowBytes <=? b) && (b <? j * rowBytes + n)
                   then texels tex (physicalRow tex origin (y + j)) (x + (b - j * rowBytes))
                   else out b) by reflexivity.
      rewrite Hw in Heq. clear Hw.
      destruct (Z.leb_spec (j * rowBytes) b); destruct (Z.ltb_spec b (j * rowBytes + n));
        simpl in Heq.
      * right. exists j. split; [left |]. split; [lia | exact Heq].
      * left. split; [exact Heq |]. intros j0 Hj0.
        apply elem_of_cons in Hj0 as [-> | Hj0]; [lia | auto].
      * left. split; [exact Heq |]. intros j0 Hj0.
        apply elem_of_cons in Hj0 as [-> | Hj0]; [lia | auto].
      * left. split; [exact Heq |]. intros j0 Hj0.
        apply elem_of_cons in Hj0 as [-> | Hj0]; [lia | auto].
    + right. exists j'. split; [right; exact Hj' |]. split; assumption.
Qed.

Lemma readPixels_ok tex origin x y w h ct out rowBytes :
  canRead tex = true -> contains (width tex) (height tex) x y w h = true ->
  readPixels tex origin x y w h ct out rowBytes =
  (true, foldl (write_row tex origin (bytesPerPixel ct * x) y (bytesPerPixel ct * w)
                          rowBytes) out (seqZ 0 h)).
Proof.
  intros Hc Hin. unfold readPixels. rewrite Hc, Hin. reflexivity.
Qed.

(** Inside output row [j], byte [c] of the row comes from the texture. *)
Lemma read_rows_inside tex origin x y n rowBytes h out j c :
  n <= rowBytes -> 0 <= j < h -> 0 <= c < n ->
  foldl (write_row tex origin x y n rowBytes) out (seqZ 0 h) (j * rowBytes + c) =
  texels tex (physicalRow tex origin (y + j)) (x + c).
Proof.
  intros Hn Hj Hc.
  destruct (write_rows_cases tex origin x y n rowBytes (seqZ 0 h) out (j * rowBytes + c))
    as [[_ Hno] | (j' & Hj' & Hspan & Hval)].
  - exfalso. apply (Hno j); [apply elem_of_seqZ; lia | lia].
  - assert (j' = j) by nia. subst j'. rewrite Hval. do 2 f_equal. lia.
Qed.

(** Bytes that belong to no output row keep their value. *)
Lemma read_rows_outside tex origin x y n rowBytes h out b :
  (forall j, 0 <= j < h -> ~ (j * rowBytes <= b < j * rowBytes + n)) ->
  foldl (write_row tex origin x y n rowBytes) out (seqZ 0 h) b = out b.
Proof.
  intros Hout.
  destruct (write_rows_cases tex origin x y n rowBytes (seqZ 0 h) out b)
    as [[Heq _] | (j' & Hj' & Hspan & _)]; [exact Heq |].
  exfalso. apply elem_of_seqZ in Hj'. apply (Hout j'); lia.
Qed.

End TransferFacts.

Section BytesAndColors.

Lemma bytes_of_colors_at a n k :
  0 <= k < 4 -> bytes_of_colors a (4 * n + k) = Z.land (Z.shiftr (a n) (8 * k)) 255.
Proof.
  intros Hk. unfold bytes_of_colors.
  replace ((4 * n + k) / 4) with n by (apply Z.div_unique with (r := k); lia).
  replace ((4 * n + k) mod 4) with k by (apply Z.mod_unique with (q := n); lia).
  reflexivity.
Qed.

(** Four little-endian bytes put together give the colour back. *)
Lemma colors_of_bytes_of_color (m : Z -> Z) (n c : Z) :
  0 <= c < 2 ^ 32 ->
  (forall k, 0 <= k < 4 -> m (4 * n + k) = Z.land (Z.shiftr c (8 * k)) 255) ->
  colors_of_bytes m n = c.
Proof.
  intros Hc Hm. unfold colors_of_bytes.
  rewrite <- (Z.add_0_r (4 * n)) at 1.
  rewrite !Hm by lia. rewrite !unpack_as_div_mod by lia.
  rewrite !Z.shiftl_mul_pow2 by lia.
  change (8 * 0) with 0. change (8 * 1) with 8. change (8 * 2) with 16.
  change (8 * 3) with 24.
  change (2 ^ 0) with 1. change (2 ^ 8) with 256. change (2 ^ 16) with 65536.
  change (2 ^ 24) with 16777216. change (2 ^ 32) with 4294967296 in Hc.
  rewrite Z.div_1_r.
  pose proof (Z.div_mod c 256 ltac:(lia)).
  pose proof (Z.mod_pos_bound c 256 ltac:(lia)).
  pose proof (Z.div_mod (c / 256) 256 ltac:(lia)).
  pose proof (Z.mod_pos_bound (c / 256) 256 ltac:(lia)).
  pose proof (Z.div_mod (c / 256 / 256) 256 ltac:(lia)).
  pose proof (Z.mod_pos_bound (c / 256 / 256) 256 ltac:(lia)).
  replace (c / 65536) with (c / 256 / 256) by (rewrite Z.div_div by lia; reflexivity).
  replace (c / 16777216) with (c / 256 / 256 / 256)
    by (rewrite !Z.div_div by lia; reflexivity).
  assert (0 <= c / 256 / 256 / 256 < 256).
  { split; [repeat apply Z.div_pos; lia |].
    rewrite !Z.div_div by lia. apply Z.div_lt_upper_bound; lia. }
  rewrite (Z.mod_small (c / 256 / 256 / 256) 256) by lia.
  lia.
Qed.

End BytesAndColors.

Section TransferTheorems.
Import GrGpu.


Lemma transfer_then_read tex origin ct buffer offset rowBytes out outRowBytes :
  canTransfer tex = true -> canRead tex = true ->
  0 <= width tex -> 0 <= height tex ->
  bytesPerPixel ct * width tex <= outRowBytes ->
  exists tex1 out',
    transferPixels tex 0 0 (width tex) (height tex) ct buffer offset rowBytes
      = (true, tex1) /\
    readPixels tex1 origin 0 0 (width tex) (height tex) ct out outRowBytes
      = (true, out') /\
    forall i j k, 0 <= i < width tex -> 0 <= j < height tex ->
      0 <= k < bytesPerPixel ct ->
      out' (j * outRowBytes + bytesPerPixel ct * i + k) =
      buffer (offset + round_trip_row origin (height tex) j * rowBytes +
              bytesPerPixel ct * i + k).
Proof.
  intros Hc Hcr Hw Hh Hrb.
  assert (Hin : contains (width tex) (height tex) 0 0 (width tex) (height tex) = true)
    by (apply contains_spec; lia).
  eexists _, _. split; [apply transferPixels_ok; assumption |].
  split; [apply readPixels_ok; [exact Hcr | exact Hin] |].
  intros i j k Hi Hj Hk. unfold bytesPerPixel in *.
  rewrite <- Z.add_assoc.
  rewrite read_rows_inside by (simpl; lia). simpl.
  assert (Hr : 0 <= round_trip_row origin (height tex) j < height tex)
    by (destruct origin; simpl; lia).
  replace (physicalRow _ origin (0 + j)) with (round_trip_row origin (height tex) j)
    by (destruct origin; simpl; f_equal; lia).
  destruct (Z.leb_spec 0 (round_trip_row origin (height tex) j)); [| lia].
  destruct (Z.ltb_spec (round_trip_row origin (height tex) j) (0 + height tex)); [| lia].
  destruct (Z.leb_spec (4 * 0) (4 * 0 + (4 * i + k))); [| lia].
  destruct (Z.ltb_spec (4 * 0 + (4 * i + k)) (4 * (0 + width tex))); [| lia].
  simpl. f_equal. lia.
Qed.

(** C3 (as amended).  For every texture that accepts the transfer and can be
    read back, and each origin convention, a full-rectangle [transferPixels] followed by a
    full-rectangle [readPixels] succeeds and returns, for every pixel
    [(i, j)] of the rectangle, the bytes of source pixel [(i, j)] when the
    origin is top-left and of source pixel [(i, height - 1 - j)] when it is
    bottom-left.  This is the relation that
    [does_full_buffer_contain_correct_values] accepts with the same origin
    for a buffer as high as the texture: the round trip is the identity up
    to the row reversal of a bottom-up origin. *)
Theorem round_trip_up_to_origin (tex : GrTexture) (origin : GrSurfaceOrigin)
    (ct : GrColorType) (buffer : Z -> Z) (offset rowBytes : Z)
    (out : Z -> Z) (outRowBytes : Z) :
  canTransfer tex = true -> canRead tex = true ->
  0 <= width tex -> 0 <= height tex ->
  bytesPerPixel ct * width tex <= outRowBytes ->
  exists tex1 out',
    transferPixels tex 0 0 (width tex) (height tex) ct buffer offset rowBytes
      = (true, tex1) /\
    readPixels tex1 origin 0 0 (width tex) (height tex) ct out outRowBytes
      = (true, out') /\
    (forall i j k, 0 <= i < width tex -> 0 <= j < height tex ->
       0 <= k < bytesPerPixel ct ->
       out' (j * outRowBytes + bytesPerPixel ct * i + k) =
       buffer (offset +
               match origin with
               | kTopLeft_GrSurfaceOrigin => j
               | kBottomLeft_GrSurfaceOrigin => height tex - 1 - j
               end * rowBytes + bytesPerPixel ct * i + k)) /\
    (forall (src : Z -> GrColor) bufferWidth,
       (forall n, 0 <= src n < 2 ^ 32) ->
       (forall b, buffer b = bytes_of_colors src b) ->
       offset = 0 -> rowBytes = bufferWidth * sizeof_GrColor ->
       outRowBytes = bufferWidth * sizeof_GrColor ->
       does_full_buffer_contain_correct_values src (colors_of_bytes out')
         (width tex) (height tex) bufferWidth (height tex) origin = true).
Proof.
  intros Hc Hcr Hw Hh Hrb.
  destruct (transfer_then_read tex origin ct buffer offset rowBytes out outRowBytes
              Hc Hcr Hw Hh Hrb) as (tex1 & out' & Ht & Hrd & Hbytes).
  exists tex1, out'. split; [exact Ht |]. split; [exact Hrd |]. split.
  - intros i j k Hi Hj Hk. rewrite (Hbytes i j k Hi Hj Hk).
    destruct origin; reflexivity.
  - intros src bufferWidth Hsrc Hbuf -> -> ->.
    apply does_full_buffer_iff. intros i j Hi Hj. symmetry.
    set (j' := round_trip_row origin (height tex) j).
    assert (Hj' : 0 <= j' < height tex) by (subst j'; destruct origin; simpl; lia).
    assert (Hidx : compared_dst_index bufferWidth (height tex) origin i j =
                   j' * bufferWidth + i) by (subst j'; destruct origin; reflexivity).
    rewrite Hidx.
    apply colors_of_bytes_of_color; [apply Hsrc |].
    intros k Hk. unfold bytesPerPixel, sizeof_GrColor in *.
    replace (4 * (j' * bufferWidth + i) + k)
      with (j' * (bufferWidth * 4) + 4 * i + k) by lia.
    rewrite (Hbytes i j' k Hi Hj' Hk).
    replace (round_trip_row origin (height tex) j') with j
      by (subst j'; destruct origin; simpl; lia).
    rewrite Hbuf.
    replace (0 + j * (bufferWidth * 4) + 4 * i + k)
      with (4 * (j * bufferWidth + i) + k) by lia.
    apply bytes_of_colors_at. exact Hk.
Qed.


End TransferTheorems.

Section TransferFrameTheorems.
Import GrGpu.

(** C5.  On a texture that accepts transfers and can be read back, a
    [transferPixels] into a sub-rectangle [(x, y, w, h)] of it succeeds and
    changes exactly the pixels of that rectangle: a full
    read after it returns, at every pixel outside the rectangle, what the
    same read returned before it, and inside the rectangle the bytes
    transferred from the buffer. *)
Theorem partial_transfer_changes_only_the_rectangle
    (tex : GrTexture) (origin : GrSurfaceOrigin) (x y w h : Z) (ct : GrColorType)
    (buffer : Z -> Z) (offset rowBytes : Z) (out : Z -> Z) (outRowBytes : Z) :
  canTransfer tex = true -> canRead tex = true ->
  contains (width tex) (height tex) x y w h = true ->
  bytesPerPixel ct * width tex <= outRowBytes ->
  exists tex1 out0 out1,
    transferPixels tex x y w h ct buffer offset rowBytes = (true, tex1) /\
    readPixels tex origin 0 0 (width tex) (height tex) ct out outRowBytes
      = (true, out0) /\
    readPixels tex1 origin 0 0 (width tex) (height tex) ct out outRowBytes
      = (true, out1) /\
    forall i j k, 0 <= i < width tex -> 0 <= j < height tex ->
      0 <= k < bytesPerPixel ct ->
      out1 (j * outRowBytes + bytesPerPixel ct * i + k) =
      let r := physicalRow tex origin j in
      if (x <=? i) && (i <? x + w) && (y <=? r) && (r <? y + h)
      then buffer (offset + (r - y) * rowBytes + bytesPerPixel ct * (i - x) + k)
      else out0 (j * outRowBytes + bytesPerPixel ct * i + k).
Proof.
  intros Hc Hcr Hin Hrb.
  pose proof (proj1 (contains_spec _ _ _ _ _ _) Hin) as Hb.
  assert (Hfull : contains (width tex) (height tex) 0 0 (width tex) (height tex) = true)
    by (apply contains_spec; lia).
  eexists _, _, _. split; [apply transferPixels_ok; assumption |].
  split; [apply readPixels_ok; [exact Hcr | exact Hfull] |].
  split; [apply readPixels_ok; [exact Hcr | exact Hfull] |].
  intros i j k Hi Hj Hk. unfold bytesPerPixel in *.
  rewrite <- !Z.add_assoc.
  rewrite !read_rows_inside by (simpl; lia). simpl.
  replace (physicalRow _ origin (0 + j)) with (physicalRow tex origin j)
    by (destruct origin; simpl; f_equal; lia).
  replace (physicalRow tex origin (0 + j)) with (physicalRow tex origin j)
    by (f_equal; lia).
  set (r := physicalRow tex origin j).
  destruct (Z.leb_spec x i); destruct (Z.ltb_spec i (x + w));
    destruct (Z.leb_spec y r); destruct (Z.ltb_spec r (y + h));
    destruct (Z.leb_spec (4 * x) (4 * 0 + (4 * i + k)));
    destruct (Z.ltb_spec (4 * 0 + (4 * i + k)) (4 * (x + w)));
    simpl; try lia; try reflexivity.
  f_equal. lia.
Qed.

(** C6.  When [rowBytes] exceeds the width of a row in bytes, the bytes of
    a row past that width play no part.  [transferPixels] gives the same
    verdict and the same texture for any two source buffers that agree on
    the bytes of the rectangle, in particular after a padding byte has
    been overwritten; [readPixels] leaves every padding byte of its
    output buffer as it was. *)
Theorem row_padding_ignored_and_untouched
    (tex : GrTexture) (origin : GrSurfaceOrigin) (x y w h : Z) (ct : GrColorType)
    (buffer : Z -> Z) (offset rowBytes : Z) (out : Z -> Z) :
  bytesPerPixel ct * w < rowBytes ->
  (forall buffer',
     (forall j c, 0 <= j < h -> 0 <= c < bytesPerPixel ct * w ->
        buffer' (offset + j * rowBytes + c) = buffer (offset + j * rowBytes + c)) ->
     fst (transferPixels tex x y w h ct buffer' offset rowBytes) =
     fst (transferPixels tex x y w h ct buffer offset rowBytes) /\
     forall r c,
       texels (snd (transferPixels tex x y w h ct buffer' offset rowBytes)) r c =
       texels (snd (transferPixels tex x y w h ct buffer offset rowBytes)) r c) /\
  (forall j c v, 0 <= j < h -> bytesPerPixel ct * w <= c < rowBytes ->
     fst (transferPixels tex x y w h ct
            (store buffer (offset + j * rowBytes + c) v) offset rowBytes) =
     fst (transferPixels tex x y w h ct buffer offset rowBytes) /\
     forall r c',
       texels (snd (transferPixels tex x y w h ct
                      (store buffer (offset + j * rowBytes + c) v) offset rowBytes)) r c' =
       texels (snd (transferPixels tex x y w h ct buffer offset rowBytes)) r c') /\
  (forall j c, 0 <= j < h -> bytesPerPixel ct * w <= c < rowBytes ->
     snd (readPixels tex origin x y w h ct out rowBytes) (j * rowBytes + c) =
     out (j * rowBytes + c)).
Proof.
  intros Hpad.
  assert (Hagree : forall buffer',
     (forall j c, 0 <= j < h -> 0 <= c < bytesPerPixel ct * w ->
        buffer' (offset + j * rowBytes + c) = buffer (offset + j * rowBytes + c)) ->
     fst (transferPixels tex x y w h ct buffer' offset rowBytes) =
     fst (transferPixels tex x y w h ct buffer offset rowBytes) /\
     forall r c,
       texels (snd (transferPixels tex x y w h ct buffer' offset rowBytes)) r c =
       texels (snd (transferPixels tex x y w h ct buffer offset rowBytes)) r c).
  { intros buffer' Hsame. unfold transferPixels.
    destruct (negb (canTransfer tex) || negb (contains (width tex) (height tex) x y w h));
      simpl; [split; reflexivity |].
    split; [reflexivity |]. intros r c.
    destruct (Z.leb_spec y r); destruct (Z.ltb_spec r (y + h));
      destruct (Z.leb_spec (bytesPerPixel ct * x) c);
      destruct (Z.ltb_spec c (bytesPerPixel ct * (x + w))); simpl; try reflexivity.
    apply Hsame; lia. }
  split; [exact Hagree |]. split.
  - intros j c v Hj Hc. apply Hagree. intros j' c' Hj' Hc'. unfold store.
    destruct (Z.eqb_spec (offset + j' * rowBytes + c') (offset + j * rowBytes + c))
      as [E | E]; [| reflexivity].
    exfalso. assert (j' = j) by nia. subst j'. lia.
  - intros j c Hj Hc. unfold readPixels.
    destruct (negb (canRead tex) || negb (contains (width tex) (height tex) x y w h));
      simpl; [reflexivity |].
    apply read_rows_outside. intros j' Hj' Hspan.
    assert (j' = j) by nia. subst j'. lia.
Qed.

(** C8.  [transferPixels] answers false and hands the texture back as it
    was whenever the format of the texture cannot accept a buffer-sourced
    transfer or the rectangle reaches outside the texture bounds.  The
    answer is a value in every case: [transferPixels] is a total
    function. *)
Theorem transferPixels_rejects
    (tex : GrTexture) (x y w h : Z) (ct : GrColorType)
    (buffer : Z -> Z) (offset rowBytes : Z) :
  canTransfer tex = false \/
  x < 0 \/ y < 0 \/ width tex < x + w \/ height tex < y + h ->
  transferPixels tex x y w h ct buffer offset rowBytes = (false, tex).
Proof.
  intros Hbad. apply transferPixels_fails.
  destruct Hbad as [Hc | Hout]; [left; exact Hc | right].
  destruct (contains (width tex) (height tex) x y w h) eqn:E; [| reflexivity].
  apply contains_spec in E. lia.
Qed.

End TransferFrameTheorems.

(* ===================================================================== *)
(** * Concrete runs                                                       *)
(* ===================================================================== *)


(** All assertions of [basic_transfer_test] pass on the protocol as the spec
    describes it, in both passes, for both origins and both colour types. *)
Example basic_transfer_test_passes :
  forallb (fun origin =>
    forallb (fun ct =>
      forallb id (basic_transfer_test [test_texture; test_texture] ct origin
                    (fun _ => 0) (fun _ => 0)))
      [GrGpu.kRGBA_8888; GrGpu.kBGRA_8888])
    [kTopLeft_GrSurfaceOrigin; kBottomLeft_GrSurfaceOrigin] = true.
Proof. vm_compute. reflexivity. Qed.

(** On a backend that cannot read the texture back the guarded checks are
    skipped and the test passes all the same; on one whose format rejects
    the transfer the first assertion of a pass fails. *)
Example basic_transfer_test_without_readback :
  basic_transfer_test [GrGpu.mkTexture 16 16 true false (fun _ _ => 0)]
    GrGpu.kRGBA_8888 kBottomLeft_GrSurfaceOrigin (fun _ => 0) (fun _ => 0) =
  [true; true; true; true].
Proof. vm_compute. reflexivity. Qed.

Example basic_transfer_test_without_transfer :
  basic_transfer_test [GrGpu.mkTexture 16 16 false true (fun _ _ => 0)]
    GrGpu.kRGBA_8888 kTopLeft_GrSurfaceOrigin (fun _ => 0) (fun _ => 0) =
  [false; false; false; false].
Proof. vm_compute. reflexivity. Qed.

(** Had the bottom-left read returned the rows as uploaded, the check of the
    test would have failed on its gradient. *)
Example identity_readback_fails_bottom_left_check :
  does_full_buffer_contain_correct_values test_srcBuffer test_srcBuffer
    kTextureWidth kTextureHeight kBufferWidth kBufferHeight
    kBottomLeft_GrSurfaceOrigin = false.
Proof. vm_compute. reflexivity. Qed.

(** The gate on the sample world: the free resource is released to the
    driver and deleted; the held one is released and stays. *)
Example release_free_resource :
  @CacheAccess.release GrGpuResource.spec_members (CacheAccess.cacheAccess 1%positive) sample_world =
  Some (tt, mkWorld {[2%positive := held_resource]}
                    [EvRelease 1%positive;
                     EvDriver (GrGpuResource.DriverFree 42);
                     EvDelete 1%positive]).
Proof. vm_compute. reflexivity. Qed.

Example abandon_held_resource :
  @CacheAccess.abandon GrGpuResource.spec_members (CacheAccess.cacheAccess 2%positive) sample_world =
  Some (tt, mkWorld (<[2%positive := GrGpuResource.with_backing None held_resource]>
                       {[1%positive := free_resource]})
                    [EvAbandon 2%positive]).
Proof. vm_compute. reflexivity. Qed.

(** C3, as stated, fails for a bottom-left origin: after the full upload of
    the test's gradient, the full read does not return the uploaded pixels
    in place (row 0 comes back holding row 15). *)
Lemma round_trip_not_identity_bottom_left :
  ~ (forall i j, 0 <= i < 16 -> 0 <= j < 16 ->
       colors_of_bytes
         (snd (GrGpu.readPixels
                 (snd (GrGpu.transferPixels test_texture 0 0 16 16 GrGpu.kRGBA_8888
                         (bytes_of_colors test_srcBuffer) 0 80))
                 kBottomLeft_GrSurfaceOrigin 0 0 16 16 GrGpu.kRGBA_8888 (fun _ => 0) 80))
         (j * 20 + i) =
       test_srcBuffer (j * 20 + i)).
Proof.
  intros Hall. specialize (Hall 0 0 ltac:(lia) ltac:(lia)).
  vm_compute in Hall. discriminate.
Qed.


(** The held resource of the sample world outlives its release through the
    gate and the first [unref]; the second [unref], by its last holder,
    destroys it. *)
Example deferred_destruction :
  (let* _ := @CacheAccess.release GrGpuResource.spec_members
               (CacheAccess.cacheAccess 2%positive) in
   let* _ := unref 2%positive in
   let* alive := (fun w => Some (bool_decide (is_Some (heap w !! 2%positive)), w)) in
   let* _ := unref 2%positive in
   let* alive' := (fun w => Some (bool_decide (is_Some (heap w !! 2%positive)), w)) in
   ret (alive, alive')) sample_world =
  Some ((true, false),
        mkWorld {[1%positive := free_resource]}
                [EvRelease 2%positive; EvDriver (GrGpuResource.DriverFree 43);
                 EvDelete 2%positive]).
Proof. vm_compute. reflexivity. Qed.

(** A scratch resource stops being scratch the moment it is given a content
    key: the verdict follows the fields. *)
Example isScratch_follows_fields :
  @CacheAccess.isScratch (CacheAccess.cacheAccess 1%positive) sample_world =
    Some (true, sample_world) /\
  (let* _ := modify 1%positive
               (fun r => GrGpuResource.mk (Some 9%positive)
                           (GrGpuResource.fScratchKey r) (GrGpuResource.fBudgeted r)
                           (GrGpuResource.fLifeCycle r) (GrGpuResource.fTimestamp r)
                           (GrGpuResource.fCacheArrayIndex r) (GrGpuResource.fHolders r)
                           (GrGpuResource.fBacking r)) in
   let* b := @CacheAccess.isScratch (CacheAccess.cacheAccess 1%positive) in
   ret b) sample_world <> None /\
  @CacheAccess.isScratch (CacheAccess.cacheAccess 2%positive) sample_world =
    Some (false, sample_world).
Proof. vm_compute. repeat split; discriminate. Qed.

(* ===================================================================== *)
(** * Witnesses                                                           *)
(* ===================================================================== *)


Lemma gate_destroys_iff_purgeable_witness :
  heap sample_world !! 1%positive = Some free_resource /\
  (exists w',
     @CacheAccess.release GrGpuResource.spec_members (CacheAccess.cacheAccess 1%positive)
       sample_world = Some (tt, w') /\
     heap w' !! 1%positive = None) /\
  (exists w',
     @CacheAccess.abandon GrGpuResource.spec_members (CacheAccess.cacheAccess 1%positive)
       sample_world = Some (tt, w') /\
     heap w' !! 1%positive = None).
Proof.
  split; [reflexivity |].
  destruct (@gate_destroys_iff_purgeable GrGpuResource.spec_members
              (CacheAccess.cacheAccess 1%positive) sample_world free_resource eq_refl)
    as [(w1 & Hrel & Hiff1 & _) (w2 & Hab & Hiff2 & _)].
  split.
  - exists w1. split; [exact Hrel |]. apply Hiff1. reflexivity.
  - exists w2. split; [exact Hab |]. apply Hiff2. reflexivity.
Defined.

Lemma isScratch_derived_from_fields_witness :
  heap sample_world !! 1%positive = Some free_resource /\
  @CacheAccess.isScratch (CacheAccess.cacheAccess 1%positive) sample_world =
    Some (true, sample_world).
Proof.
  split; [reflexivity |].
  exact (proj1 (@isScratch_derived_from_fields GrGpuResource.spec_members
                  (CacheAccess.cacheAccess 1%positive) sample_world free_resource
                  eq_refl)).
Defined.

Lemma abandon_uses_device_lost_hook_witness :
  heap sample_world !! 2%positive = Some held_resource /\
  exists w' es,
    @CacheAccess.abandon GrGpuResource.spec_members (CacheAccess.cacheAccess 2%positive)
      sample_world = Some (tt, w') /\
    trace w' = trace sample_world ++ EvAbandon 2%positive :: es /\
    (forall c, EvDriver c ∉ es) /\ (forall q, EvRelease q ∉ es).
Proof.
  split; [reflexivity |].
  exact (proj2 (proj2 (@abandon_uses_device_lost_hook GrGpuResource.spec_members
                         (CacheAccess.cacheAccess 2%positive) sample_world held_resource
                         eq_refl))).
Defined.

Lemma round_trip_up_to_origin_witness :
  exists tex1 out',
    GrGpu.transferPixels test_texture 0 0 16 16 GrGpu.kRGBA_8888
      (bytes_of_colors test_srcBuffer) 0 80 = (true, tex1) /\
    GrGpu.readPixels tex1 kBottomLeft_GrSurfaceOrigin 0 0 16 16 GrGpu.kRGBA_8888
      (fun _ => 0) 80 = (true, out') /\
    out' (3 * 80 + 4 * 5 + 1) = bytes_of_colors test_srcBuffer (0 + 12 * 80 + 4 * 5 + 1).
Proof.
  destruct (round_trip_up_to_origin test_texture kBottomLeft_GrSurfaceOrigin
              GrGpu.kRGBA_8888 (bytes_of_colors test_srcBuffer) 0 80 (fun _ => 0) 80
              eq_refl eq_refl ltac:(concrete) ltac:(concrete) ltac:(concrete))
    as (tex1 & out' & Ht & Hr & Hbytes & _).
  exists tex1, out'. split; [exact Ht |]. split; [exact Hr |].
  apply (Hbytes 5 3 1); concrete.
Defined.


Lemma partial_transfer_changes_only_the_rectangle_witness :
  exists tex1 out0 out1,
    GrGpu.transferPixels test_texture kLeft kTop kWidth kHeight GrGpu.kRGBA_8888
      (bytes_of_colors test_srcBuffer) 808 80 = (true, tex1) /\
    GrGpu.readPixels test_texture kTopLeft_GrSurfaceOrigin 0 0 16 16 GrGpu.kRGBA_8888
      (fun _ => 0) 80 = (true, out0) /\
    GrGpu.readPixels tex1 kTopLeft_GrSurfaceOrigin 0 0 16 16 GrGpu.kRGBA_8888
      (fun _ => 0) 80 = (true, out1) /\
    out1 (9 * 80 + 4 * 2 + 0) = out0 (9 * 80 + 4 * 2 + 0) /\
    out1 (10 * 80 + 4 * 2 + 0) = bytes_of_colors test_srcBuffer 808.
Proof.
  destruct (partial_transfer_changes_only_the_rectangle test_texture
              kTopLeft_GrSurfaceOrigin kLeft kTop kWidth kHeight GrGpu.kRGBA_8888
              (bytes_of_colors test_srcBuffer) 808 80 (fun _ => 0) 80
              eq_refl eq_refl eq_refl ltac:(concrete))
    as (tex1 & out0 & out1 & Ht & Hr0 & Hr1 & Hpix).
  exists tex1, out0, out1. split; [exact Ht |]. split; [exact Hr0 |].
  split; [exact Hr1 |]. split.
  - exact (Hpix 2 9 0 ltac:(concrete) ltac:(concrete) ltac:(concrete)).
  - exact (Hpix 2 10 0 ltac:(concrete) ltac:(concrete) ltac:(concrete)).
Defined.

Lemma row_padding_ignored_and_untouched_witness :
  GrGpu.bytesPerPixel GrGpu.kRGBA_8888 * 16 < 80 /\
  snd (GrGpu.readPixels test_texture kTopLeft_GrSurfaceOrigin 0 0 16 16 GrGpu.kRGBA_8888
         (fun _ => 205) 80) (3 * 80 + 70) = 205.
Proof.
  split; [concrete |].
  exact (proj2 (proj2 (row_padding_ignored_and_untouched test_texture
                         kTopLeft_GrSurfaceOrigin 0 0 16 16 GrGpu.kRGBA_8888
                         (fun _ => 0) 0 80 (fun _ => 205) ltac:(concrete)))
               3 70 ltac:(concrete) ltac:(concrete)).
Defined.

Lemma transferPixels_rejects_witness :
  GrGpu.width test_texture < 8 + 10 /\
  GrGpu.transferPixels test_texture 8 10 10 2 GrGpu.kRGBA_8888
    (bytes_of_colors test_srcBuffer) 0 80 = (false, test_texture).
Proof.
  split; [concrete |].
  apply transferPixels_rejects. right. right. right. left. concrete.
Defined.

(* ===================================================================== *)
(** * Further properties, I: the cache-access gate                        *)
(* ===================================================================== *)

Section GateFieldAccess.
Import GrGpuResource CacheAccess.

(** A write through the gate to one field of the resource. *)
Lemma modify_eq p f w r :
  heap w !! p = Some r ->
  modify p f w = Some (tt, mkWorld (<[p := f r]> (heap w)) (trace w)).
Proof. intros Hr. unfold modify. rewrite Hr. reflexivity. Qed.

Lemma deref_eq p w r : heap w !! p = Some r -> deref p w = Some (r, w).
Proof. intros Hr. unfold deref. rewrite Hr. reflexivity. Qed.

(** [setTimestamp] followed by [timestamp] reads back the value written,
    reduced to 32 bits; [accessCacheIndex] reads back the index stored
    through it.  Either write changes that one field only: the resource is
    left with the written field and with its keys, budget flag, life cycle,
    holders, backing allocation and the other of the two fields as they
    were, so the verdict of [isWrapped] stands; every other resource and the
    trace stay as they were, and of two writes in a row the second wins. *)
Theorem gate_field_round_trip
    (ca : CacheAccess.t) (w : World) (r : GrGpuResource.t) (ts i : Z) :
  heap w !! fResource ca = Some r ->
  exists w1 w2,
    setTimestamp ca ts w = Some (tt, w1) /\
    accessCacheIndex_store ca i w = Some (tt, w2) /\
    heap w1 !! fResource ca =
      Some (GrGpuResource.mk (fContentKey r) (fScratchKey r) (fBudgeted r)
              (fLifeCycle r) (ts mod 2 ^ 32) (fCacheArrayIndex r)
              (fHolders r) (fBacking r)) /\
    heap w2 !! fResource ca =
      Some (GrGpuResource.mk (fContentKey r) (fScratchKey r) (fBudgeted r)
              (fLifeCycle r) (fTimestamp r) i (fHolders r) (fBacking r)) /\
    timestamp ca w1 = Some (ts mod 2 ^ 32, w1) /\
    (0 <= ts < 2 ^ 32 -> timestamp ca w1 = Some (ts, w1)) /\
    accessCacheIndex_load ca w2 = Some (i, w2) /\
    accessCacheIndex_load ca w1 = Some (fCacheArrayIndex r, w1) /\
    timestamp ca w2 = Some (fTimestamp r, w2) /\
    fst <$> isWrapped ca w1 = fst <$> isWrapped ca w /\
    fst <$> isWrapped ca w2 = fst <$> isWrapped ca w /\
    (forall q, q <> fResource ca ->
       heap w1 !! q = heap w !! q /\ heap w2 !! q = heap w !! q) /\
    trace w1 = trace w /\ trace w2 = trace w /\
    (forall ts', (exec setTimestamp ca ts in setTimestamp ca ts') w =
                 setTimestamp ca ts' w) /\
    (forall i', (exec accessCacheIndex_store ca i in accessCacheIndex_store ca i') w =
                accessCacheIndex_store ca i' w).
Proof.
  intros Hr. unfold setTimestamp, accessCacheIndex_store.
  rewrite !(modify_eq _ _ w r Hr).
  eexists _, _. split; [reflexivity |]. split; [reflexivity |].
  assert (L1 : forall f, heap (mkWorld (<[fResource ca := f r]> (heap w)) (trace w))
                           !! fResource ca = Some (f r))
    by (intros f; simpl; apply lookup_insert_eq).
  split; [exact (L1 (with_timestamp (ts mod 2 ^ 32))) |].
  split; [exact (L1 (with_cacheArrayIndex i)) |].
  unfold timestamp, accessCacheIndex_load, isWrapped, bind, ret.
  rewrite !(deref_eq _ _ _ (L1 _)), (deref_eq _ w r Hr). simpl.
  repeat split.
  - intros Hts. rewrite Z.mod_small by lia. reflexivity.
  - now rewrite lookup_insert_ne.
  - now rewrite lookup_insert_ne.
  - intros ts'.
    rewrite (modify_eq _ (with_timestamp (ts mod 2 ^ 32)) w r Hr).
    rewrite (modify_eq _ (with_timestamp (ts' mod 2 ^ 32)) w r Hr).
    rewrite (modify_eq _ _ _ _ (L1 _)). simpl.
    rewrite insert_insert_eq. reflexivity.
  - intros i'.
    rewrite (modify_eq _ (with_cacheArrayIndex i) w r Hr).
    rewrite (modify_eq _ (with_cacheArrayIndex i') w r Hr).
    rewrite (modify_eq _ _ _ _ (L1 _)). simpl.
    rewrite insert_insert_eq. reflexivity.
Qed.

End GateFieldAccess.

Section GateSequences.
Import GrGpuResource CacheAccess.
Context {H : Members}.

Lemma deleted_app es1 es2 : deleted (es1 ++ es2) = deleted es1 ++ deleted es2.
Proof. unfold deleted. apply omap_app. Qed.

Lemma deleted_drivers calls : deleted (map EvDriver calls) = [].
Proof. induction calls as [| c calls IH]; [reflexivity | exact IH]. Qed.

(** Every operation of the gate starts by dereferencing [fResource]. *)
Lemma run_op_dangling ca o w :
  heap w !! fResource ca = None -> run_op ca o w = None.
Proof.
  intros Hn. destruct o; simpl;
    unfold release, abandon, resource_release, resource_abandon, setTimestamp,
      accessCacheIndex_store, bind, deref, modify; rewrite Hn; reflexivity.
Qed.

Lemma gate_reads_dangling ca w :
  heap w !! fResource ca = None ->
  isScratch ca w = None /\ isWrapped ca w = None /\
  timestamp ca w = None /\ accessCacheIndex_load ca w = None.
Proof.
  intros Hn. unfold isScratch, isWrapped, timestamp, accessCacheIndex_load, bind, deref.
  rewrite Hn. repeat split.
Qed.

Lemma deleted_cons ev es : deleted (ev :: es) = deleted [ev] ++ deleted es.
Proof. apply (deleted_app [ev] es). Qed.

(** Over hooks that keep to their own object the gate is the gate of
    Part I. *)
Lemma release_in_lift ca w :
  release_in (lift_members H) ca w = release ca w /\
  abandon_in (lift_members H) ca w = abandon ca w.
Proof.
  unfold release_in, abandon_in, release, abandon, resource_isPurgeable,
    query_isPurgeable, bind, deref, ret. simpl.
  split.
  - destruct (resource_release (fResource ca) w) as [[[] w1] |]; [| reflexivity].
    destruct (heap w1 !! fResource ca); reflexivity.
  - destruct (resource_abandon (fResource ca) w) as [[[] w1] |]; [| reflexivity].
    destruct (heap w1 !! fResource ca); reflexivity.
Qed.

Lemma lift_hooks_local :
  hook_local (world_release (lift_members H)) /\
  hook_local (world_abandon (lift_members H)).
Proof.
  assert (Hgen : forall ev (hook : GrGpuResource.t -> GrGpuResource.t * list DriverCall),
            deleted [ev] = [] ->
            forall p w w',
              (let* r := deref p in
               exec emit (ev :: map EvDriver (snd (hook r))) in
               modify p (fun _ => fst (hook r))) w = Some (tt, w') ->
              is_Some (heap w !! p) /\ is_Some (heap w' !! p) /\
              (forall q, q <> p -> heap w' !! q = heap w !! q) /\
              exists es, trace w' = trace w ++ es /\ deleted es = []).
  { intros ev hook Hev p w w' Hrun. unfold bind, deref, emit, modify in Hrun.
    destruct (heap w !! p) as [r |] eqn:Hr; [| discriminate].
    simpl in Hrun. rewrite Hr in Hrun. injection Hrun as <-. simpl.
    split; [eauto |]. split; [rewrite lookup_insert_eq; eauto |].
    split; [intros q Hq; now rewrite lookup_insert_ne |].
    eexists. split; [reflexivity |].
    rewrite deleted_cons, deleted_drivers, Hev. reflexivity. }
  split; intros p w w' Hrun.
  - exact (Hgen (EvRelease p) hook_release eq_refl p w w' Hrun).
  - exact (Hgen (EvAbandon p) hook_abandon eq_refl p w w' Hrun).
Qed.

End GateSequences.

Section GateSequencesOverWorldHooks.
Import GrGpuResource CacheAccess.
Variable m : WorldMembers.
Hypothesis release_local : hook_local (world_release m).
Hypothesis abandon_local : hook_local (world_abandon m).

(** What the gate adds to a teardown hook: the query and, on [true], the
    deletion of its own resource. *)
Lemma teardown_in_effect (hook : addr -> M unit) ca w w' :
  hook_local hook ->
  (exec hook (fResource ca) in
   let* b := query_isPurgeable m (fResource ca) in
   if b then SkDELETE (fResource ca) else ret tt) w = Some (tt, w') ->
  is_Some (heap w !! fResource ca) /\
  (forall q, q <> fResource ca -> heap w' !! q = heap w !! q) /\
  exists es, trace w' = trace w ++ es /\
    ((deleted es = [fResource ca] /\ heap w' !! fResource ca = None) \/
     (deleted es = [] /\ is_Some (heap w' !! fResource ca))).
Proof.
  intros Hlocal Hrun. unfold bind, query_isPurgeable in Hrun.
  destruct (hook (fResource ca) w) as [[[] w1] |] eqn:Hhook; [| discriminate].
  destruct (Hlocal _ _ _ Hhook) as (Hlive & Hlive1 & Hframe & es & Htr & Hdel).
  split; [exact Hlive |].
  destruct (world_isPurgeable m (fResource ca) w1) as [[|] |]; [| | discriminate].
  - unfold SkDELETE in Hrun.
    destruct (heap w1 !! fResource ca) eqn:E; [| discriminate].
    injection Hrun as <-. simpl. split.
    + intros q Hq. rewrite lookup_delete_ne by congruence. now apply Hframe.
    + exists (es ++ [EvDelete (fResource ca)]).
      split; [rewrite Htr, app_assoc; reflexivity |].
      left. split; [| apply lookup_delete_eq].
      rewrite deleted_app, Hdel. reflexivity.
  - injection Hrun as <-. split; [exact Hframe |].
    exists es. split; [exact Htr |]. right. split; [exact Hdel | exact Hlive1].
Qed.

(** The effect of one operation on the heap and on the trace. *)
Lemma run_op_in_effect ca o w w' :
  run_op_in m ca o w = Some (tt, w') ->
  is_Some (heap w !! fResource ca) /\
  (forall q, q <> fResource ca -> heap w' !! q = heap w !! q) /\
  exists es, trace w' = trace w ++ es /\
    ((deleted es = [fResource ca] /\ heap w' !! fResource ca = None) \/
     (deleted es = [] /\ is_Some (heap w' !! fResource ca))).
Proof.
  intros Hrun. destruct o; simpl in Hrun.
  - exact (teardown_in_effect (world_release m) ca w w' release_local Hrun).
  - exact (teardown_in_effect (world_abandon m) ca w w' abandon_local Hrun).
  - unfold setTimestamp, modify in Hrun.
    destruct (heap w !! fResource ca) as [r |] eqn:Hr; [| discriminate].
    injection Hrun as <-. simpl. split; [eauto |]. split.
    + intros q Hq. now rewrite lookup_insert_ne.
    + exists []. split; [now rewrite app_nil_r |]. right.
      split; [reflexivity |]. rewrite lookup_insert_eq. eauto.
  - unfold accessCacheIndex_store, modify in Hrun.
    destruct (heap w !! fResource ca) as [r |] eqn:Hr; [| discriminate].
    injection Hrun as <-. simpl. split; [eauto |]. split.
    + intros q Hq. now rewrite lookup_insert_ne.
    + exists []. split; [now rewrite app_nil_r |]. right.
      split; [reflexivity |]. rewrite lookup_insert_eq. eauto.
Qed.

(** The hooks being arbitrary code outside the gate, let them keep to their
    own object (each is entered on a live object and leaves it alive,
    changes no other object and reports no deletion).  Then a sequence of
    gate operations that runs to its end changes or deletes only the
    resources the operations are addressed to; no object comes into being;
    no object is deleted twice; and an object the sequence deleted existed
    at the start and is gone at the end. *)
Theorem gate_sequence_locality
    (ops : list (CacheAccess.t * CacheAccess.Op)) (w w' : World) :
  run_ops_in m ops w = Some (tt, w') ->
  (forall q, q ∉ targets ops -> heap w' !! q = heap w !! q) /\
  (forall q, heap w !! q = None -> heap w' !! q = None) /\
  exists es,
    trace w' = trace w ++ es /\
    NoDup (deleted es) /\
    (forall q, q ∈ deleted es ->
       q ∈ targets ops /\ is_Some (heap w !! q) /\ heap w' !! q = None).
Proof.
  revert w. induction ops as [| [ca o] ops IH]; intros w Hrun; simpl in Hrun.
  - injection Hrun as <-. split; [reflexivity |]. split; [auto |].
    exists []. split; [now rewrite app_nil_r |]. split; [constructor |].
    intros q Hq. inversion Hq.
  - unfold bind in Hrun.
    destruct (run_op_in m ca o w) as [[[] w1] |] eqn:Hop; [| discriminate].
    destruct (run_op_in_effect ca o w w1 Hop) as (Hsome & Hframe & es1 & Ht1 & Hdel1).
    destruct (IH w1 Hrun) as (Hloc & Hnone & es2 & Ht2 & Hnd & Hdel2).
    assert (Hnone1 : forall q, heap w !! q = None -> heap w1 !! q = None).
    { intros q Hq. destruct (decide (q = fResource ca)) as [-> | Hne].
      - rewrite Hq in Hsome. destruct Hsome as [? ?]. discriminate.
      - now rewrite Hframe. }
    split; [| split].
    + intros q Hq. simpl in Hq. apply not_elem_of_cons in Hq as [Hne Hq].
      rewrite Hloc by exact Hq. now apply Hframe.
    + intros q Hq. apply Hnone, Hnone1, Hq.
    + exists (es1 ++ es2). split; [rewrite Ht2, Ht1, app_assoc; reflexivity |].
      rewrite deleted_app.
      assert (Hin2 : forall q, q ∈ deleted es2 ->
                q ∈ targets ((ca, o) :: ops) /\ is_Some (heap w !! q) /\
                heap w' !! q = None).
      { intros q Hq. destruct (Hdel2 q Hq) as (Hq1 & Hq2 & Hq3).
        split; [simpl; now right |]. split; [| exact Hq3].
        destruct (heap w !! q) eqn:E; [eauto |].
        rewrite (Hnone1 q E) in Hq2. exact Hq2. }
      destruct Hdel1 as [[-> Hgone] | [-> _]]; simpl.
      * split.
        -- apply NoDup_cons. split; [| exact Hnd].
           intros Hq. destruct (Hdel2 _ Hq) as (_ & Hq2 & _).
           rewrite Hgone in Hq2. destruct Hq2 as [? ?]. discriminate.
        -- intros q Hq. apply elem_of_cons in Hq as [-> | Hq]; [| now apply Hin2].
           split; [now left |]. split; [exact Hsome |]. now apply Hnone.
      * split; [exact Hnd | exact Hin2].
Qed.

End GateSequencesOverWorldHooks.

(** Without the premise the conclusion fails: a release hook that deletes
    another resource makes a release through one gate delete an object the
    gate was never addressed to. *)
Example gate_sequence_not_local_for_a_roaming_hook :
  run_ops_in
    (mkWorldMembers (fun _ => SkDELETE 2%positive) (fun _ => ret tt)
                    (fun _ _ => Some false))
    [(CacheAccess.cacheAccess 1%positive, CacheAccess.OpRelease)] sample_world =
  Some (tt, mkWorld {[1%positive := free_resource]} [EvDelete 2%positive]).
Proof. vm_compute. reflexivity. Qed.


Section GateAfterDestruction.
Import GrGpuResource CacheAccess.
Context {H : Members}.

(** Once a [release()] or [abandon()] has destroyed the resource, the gate
    and every copy of it hold a dangling pointer: each further operation or
    query through them dereferences an object that is gone.  A teardown
    that did not destroy the resource is not remembered by the gate: a
    second [release()] enters the release hook again, on the state the
    first one left. *)
Theorem gate_use_after_destruction
    (ca : CacheAccess.t) (w : World) (r : GrGpuResource.t) :
  heap w !! fResource ca = Some r ->
  (forall w1,
     (release ca w = Some (tt, w1) /\ isPurgeable (fst (hook_release r)) = true) \/
     (abandon ca w = Some (tt, w1) /\ isPurgeable (fst (hook_abandon r)) = true) ->
     (forall o, run_op ca o w1 = None) /\
     (forall o, run_op (CacheAccess_copy ca) o w1 = None) /\
     isScratch ca w1 = None /\ isWrapped ca w1 = None /\
     timestamp ca w1 = None /\ accessCacheIndex_load ca w1 = None) /\
  (isPurgeable (fst (hook_release r)) = false ->
   exists w1 w2 es,
     release ca w = Some (tt, w1) /\
     release ca w1 = Some (tt, w2) /\
     trace w2 = trace w ++ EvRelease (fResource ca)
                  :: map EvDriver (snd (hook_release r))
                  ++ EvRelease (fResource ca)
                  :: map EvDriver (snd (hook_release (fst (hook_release r)))) ++ es /\
     (es = [] \/ es = [EvDelete (fResource ca)])).
Proof.
  intros Hr. split.
  - intros w1 Hw1.
    assert (Hgone : heap w1 !! fResource ca = None).
    { destruct Hw1 as [[Hrel Hp] | [Hab Hp]].
      - rewrite (release_eq ca w r Hr) in Hrel. injection Hrel as <-.
        now apply torn_down_lookup.
      - rewrite (abandon_eq ca w r Hr) in Hab. injection Hab as <-.
        now apply torn_down_lookup. }
    split; [intros o; now apply run_op_dangling |].
    split; [intros o; now apply run_op_dangling |].
    now apply gate_reads_dangling.
  - intros Hheld.
    assert (Hr1 : heap (torn_down (fResource ca) (EvRelease (fResource ca))
                          (fst (hook_release r)) (snd (hook_release r)) w)
                    !! fResource ca = Some (fst (hook_release r)))
      by now apply torn_down_lookup.
    destruct (isPurgeable (fst (hook_release (fst (hook_release r))))) eqn:Hp2.
    + eexists _, _, [EvDelete (fResource ca)].
      split; [apply (release_eq ca w r Hr) |].
      split; [apply (release_eq ca _ _ Hr1) |].
      split; [| now right].
      clear Hr1. unfold torn_down. rewrite Hheld, Hp2. simpl.
      rewrite <- app_assoc. reflexivity.
    + eexists _, _, [].
      split; [apply (release_eq ca w r Hr) |].
      split; [apply (release_eq ca _ _ Hr1) |].
      split; [| now left].
      clear Hr1. unfold torn_down. rewrite Hheld, Hp2. simpl.
      rewrite <- app_assoc, app_nil_r. reflexivity.
Qed.

End GateAfterDestruction.

(* ===================================================================== *)
(** * Further properties, II: the gradient of fill_transfer_data          *)
(* ===================================================================== *)

Section GradientExact.
Import Float32.

(** Rounding stays below an integer that the quotient misses by more than
    one half. *)
Lemma rne_lt p q M : 0 < q -> 2 * p < (2 * M - 1) * q -> rne p q < M.
Proof.
  intros Hq Hlt.
  pose proof (Z.div_mod p q ltac:(lia)) as Hdm.
  pose proof (Z.mod_pos_bound p q Hq) as Hm.
  assert (Hf : p / q <= M - 1) by nia.
  destruct (Z.eq_dec (p / q) (M - 1)) as [E | E].
  - unfold rne. rewrite E in *.
    destruct (Z.compare_spec (2 * (p mod q)) q); [nia | lia | nia].
  - destruct (rne_floor_or_succ p q) as [-> | ->]; lia.
Qed.

(** For buffers up to 65536 pixels wide the three single-precision
    operations lose nothing: the truncated value is the integer quotient. *)
Lemma gradient_exact k n : 0 <= k < n -> n <= 65536 -> gradient k n = 256 * k / n.
Proof.
  intros Hk Hn. unfold gradient.
  rewrite !of_int_small by (change (2 ^ 24) with 16777216; lia).
  unfold div. destruct (Z.eqb_spec k 0) as [-> | Hk0].
  { unfold to_uint, mul256; simpl. rewrite Z.div_0_l by lia. reflexivity. }
  set (s0 := 23 + (Z.log2 n - Z.log2 k)).
  set (s := if k * 2 ^ s0 <? 2 ^ 23 * n then s0 + 1 else s0).
  unfold to_uint, mul256; simpl.
  assert (Hla : Z.log2 k < 16) by (apply Z.log2_lt_pow2; [lia |]; change (2 ^ 16) with 65536; lia).
  assert (Hlk : 0 <= Z.log2 k) by apply Z.log2_nonneg.
  assert (Hll : Z.log2 k <= Z.log2 n) by (apply Z.log2_le_mono; lia).
  destruct (Z.log2_spec n ltac:(lia)) as [_ Hnhi].
  assert (Hs : Z.log2 n + 8 <= s) by (subst s s0; destruct (_ <? _); lia).
  set (P := 2 ^ (s - 8)).
  assert (HP : 2 ^ s = 256 * P).
  { subst P. change 256 with (2 ^ 8). rewrite <- Z.pow_add_r by lia. f_equal. lia. }
  assert (HPn : n < 2 * P).
  { assert (2 ^ Z.succ (Z.log2 n) <= 2 * P).
    { subst P. change (2 * 2 ^ (s - 8)) with (2 ^ 1 * 2 ^ (s - 8)).
      rewrite <- Z.pow_add_r by lia. apply Z.pow_le_mono_r; lia. }
    lia. }
  assert (HPpos : 0 < P) by (subst P; apply Z.pow_pos_nonneg; lia).
  rewrite HP.
  set (m := rne (k * (256 * P)) n).
  set (t := 256 * k / n).
  assert (Ht1 : n * t <= 256 * k) by (subst t; apply Z.mul_div_le; lia).
  assert (Ht2 : 256 * k < n * Z.succ t) by (subst t; apply Z.mul_succ_div_gt; lia).
  assert (Ht0 : 0 <= t) by (subst t; apply Z.div_pos; lia).
  assert (Hlo : t * P <= m).
  { subst m. apply rne_ge_of_ge; [lia |]. nia. }
  assert (Hhi : m < (t + 1) * P).
  { subst m. apply rne_lt; [lia |]. nia. }
  rewrite Z.div_mul_cancel_l by lia.
  symmetry. apply Z.div_unique with (r := m - P * t). 
  - left. lia.
  - lia.
Qed.

End GradientExact.

(** Within that range the gradient is the integer quotient [256*k/n]: it
    stays below 256, so [x - (x >> 8)] leaves it as it is, and it never
    decreases along a row or a column. *)
Theorem gradient_is_integer_quotient (k n : Z) :
  0 <= k < n -> n <= 65536 ->
  gradient k n = 256 * k / n /\
  0 <= gradient k n < 256 /\
  u32 (gradient k n - Z.shiftr (gradient k n) 8) = gradient k n /\
  (forall k', k <= k' < n -> gradient k n <= gradient k' n).
Proof.
  intros Hk Hn.
  assert (Hq : forall k0, 0 <= k0 < n -> 0 <= 256 * k0 / n < 256).
  { intros k0 Hk0. split; [apply Z.div_pos; lia |].
    apply Z.div_lt_upper_bound; lia. }
  rewrite (gradient_exact k n Hk Hn).
  split; [reflexivity |]. split; [now apply Hq |]. split.
  - rewrite Z.shiftr_div_pow2 by lia. change (2 ^ 8) with 256.
    rewrite (Z.div_small (256 * k / n) 256) by now apply Hq.
    unfold u32. rewrite Z.sub_0_r. apply Z.mod_small.
    pose proof (Hq k Hk). change (2 ^ 32) with 4294967296. lia.
  - intros k' Hk'. rewrite (gradient_exact k' n) by lia.
    apply Z.div_le_mono; lia.
Qed.

Section FillFacts.
Variables left top width height bufferWidth : Z.

Lemma fill_transfer_data_outside (data : Z -> GrColor) (idx : Z) :
  (forall i j, left <= i < left + width -> top <= j < top + height ->
               i + j * bufferWidth <> idx) ->
  fill_transfer_data left top width height bufferWidth data idx = data idx.
Proof.
  intros Hout.
  destruct (fill_transfer_data_cases left top width height bufferWidth data idx)
    as [[Heq _] | (i & j & Hi & Hj & Hidx & _)]; [exact Heq |].
  exfalso. exact (Hout i j Hi Hj Hidx).
Qed.

Lemma fill_transfer_data_inside (data : Z -> GrColor) (i j : Z) :
  left <= i < left + width -> top <= j < top + height -> width <= bufferWidth ->
  fill_transfer_data left top width height bufferWidth data (i + j * bufferWidth) =
  gradient_color left top width height i j.
Proof.
  intros Hi Hj Hw.
  destruct (fill_transfer_data_cases left top width height bufferWidth data
              (i + j * bufferWidth))
    as [[_ Hno] | (i' & j' & Hi' & Hj' & Hidx & Hval)].
  { exfalso. now apply (Hno i j Hi Hj). }
  assert (Hjj : j' = j) by nia.
  subst j'. assert (i' = i) by lia. subst i'. exact Hval.
Qed.

Lemma in_rect_spec i j :
  in_rect left top width height i j = true <->
  left <= i < left + width /\ top <= j < top + height.
Proof.
  unfold in_rect. rewrite !andb_true_iff, !Z.leb_le, !Z.ltb_lt. tauto.
Qed.

(** The entry of column [i], row [j] of a buffer whose rows hold the whole
    rectangle. *)
Lemma fill_transfer_data_at (data : Z -> GrColor) (i j : Z) :
  0 <= left -> left + width <= bufferWidth -> 0 <= i < bufferWidth ->
  fill_transfer_data left top width height bufferWidth data (i + j * bufferWidth) =
  if in_rect left top width height i j
  then gradient_color left top width height i j
  else data (i + j * bufferWidth).
Proof.
  intros Hl Hr Hi.
  destruct (in_rect left top width height i j) eqn:Hin.
  - apply in_rect_spec in Hin as [Hi' Hj']. apply fill_transfer_data_inside; lia.
  - apply fill_transfer_data_outside. intros i' j' Hi' Hj' E.
    assert (Hinj : i' = i /\ j' = j).
    { apply (grid_offset_inj bufferWidth); lia. }
    destruct Hinj as [-> ->].
    assert (in_rect left top width height i j = true) by (apply in_rect_spec; lia).
    congruence.
Qed.

End FillFacts.

(** The colour [fill_transfer_data] writes at column [i], row [j] of a
    rectangle up to 65536 pixels wide and high: red is [256*(i-left)/width],
    green is [256*(j-top)/height], blue and alpha are 0xff. *)
Theorem gradient_color_closed_form (left top width height i j : Z) :
  left <= i < left + width -> top <= j < top + height ->
  width <= 65536 -> height <= 65536 ->
  gradient_color left top width height i j =
    256 * (i - left) / width + (256 * (j - top) / height) * 2 ^ 8 +
    255 * 2 ^ 16 + 255 * 2 ^ 24 /\
  GrColorUnpackR (gradient_color left top width height i j) = 256 * (i - left) / width /\
  GrColorUnpackG (gradient_color left top width height i j) = 256 * (j - top) / height /\
  GrColorUnpackB (gradient_color left top width height i j) = 255 /\
  GrColorUnpackA (gradient_color left top width height i j) = 255.
Proof.
  intros Hi Hj Hw Hh.
  assert (Hq : forall k n, 0 <= k < n -> n <= 65536 ->
            u32 (gradient k n - Z.shiftr (gradient k n) 8) = 256 * k / n /\
            0 <= 256 * k / n <= 255).
  { intros k n Hk Hn. rewrite (gradient_exact k n Hk Hn).
    assert (0 <= 256 * k / n < 256).
    { split; [apply Z.div_pos; lia | apply Z.div_lt_upper_bound; lia]. }
    split; [| lia].
    rewrite Z.shiftr_div_pow2 by lia. change (2 ^ 8) with 256.
    rewrite (Z.div_small (256 * k / n) 256) by assumption.
    unfold u32. rewrite Z.sub_0_r. apply Z.mod_small.
    change (2 ^ 32) with 4294967296. lia. }
  destruct (Hq (i - left) width ltac:(lia) Hw) as [Er Hr].
  destruct (Hq (j - top) height ltac:(lia) Hh) as [Eg Hg].
  unfold gradient_color. rewrite Er, Eg.
  split; [apply GrColorPackRGBA_sum; lia |].
  apply (GrColorUnpack_Pack _ _ 255 255); lia.
Qed.

(** Two fills in a row, as [basic_transfer_test] does with the full
    gradient and then the sub-rectangle: in a buffer whose rows hold both
    rectangles, an entry ends up with the colour of the second rectangle if
    it lies in it, else with that of the first if it lies in that, else with
    what it held before.  So a fill repeated changes nothing, and fills of
    disjoint rectangles can be swapped. *)
Theorem fill_transfer_data_twice
    (l1 t1 w1 h1 l2 t2 w2 h2 bufferWidth : Z) (data : Z -> GrColor) :
  0 <= l1 -> l1 + w1 <= bufferWidth -> 0 <= l2 -> l2 + w2 <= bufferWidth ->
  (forall i j, 0 <= i < bufferWidth ->
     fill_transfer_data l2 t2 w2 h2 bufferWidth
       (fill_transfer_data l1 t1 w1 h1 bufferWidth data) (i + j * bufferWidth) =
     if in_rect l2 t2 w2 h2 i j then gradient_color l2 t2 w2 h2 i j
     else if in_rect l1 t1 w1 h1 i j then gradient_color l1 t1 w1 h1 i j
     else data (i + j * bufferWidth)) /\
  (forall i j, 0 <= i < bufferWidth ->
     fill_transfer_data l1 t1 w1 h1 bufferWidth
       (fill_transfer_data l1 t1 w1 h1 bufferWidth data) (i + j * bufferWidth) =
     fill_transfer_data l1 t1 w1 h1 bufferWidth data (i + j * bufferWidth)) /\
  ((forall i j, in_rect l1 t1 w1 h1 i j && in_rect l2 t2 w2 h2 i j = false) ->
   forall i j, 0 <= i < bufferWidth ->
     fill_transfer_data l2 t2 w2 h2 bufferWidth
       (fill_transfer_data l1 t1 w1 h1 bufferWidth data) (i + j * bufferWidth) =
     fill_transfer_data l1 t1 w1 h1 bufferWidth
       (fill_transfer_data l2 t2 w2 h2 bufferWidth data) (i + j * bufferWidth)).
Proof.
  intros Hl1 Hr1 Hl2 Hr2. split; [| split].
  - intros i j Hi. rewrite !fill_transfer_data_at by assumption. reflexivity.
  - intros i j Hi. rewrite !fill_transfer_data_at by assumption.
    destruct (in_rect l1 t1 w1 h1 i j); reflexivity.
  - intros Hdis i j Hi. rewrite !fill_transfer_data_at by assumption.
    specialize (Hdis i j).
    destruct (in_rect l1 t1 w1 h1 i j), (in_rect l2 t2 w2 h2 i j);
      try reflexivity; discriminate.
Qed.

(** A fill of a rectangle that lies in a [bufferWidth] by [bufferHeight]
    buffer stays inside the [bufferWidth*bufferHeight] entries of the
    allocation. *)
Theorem fill_transfer_data_in_bounds
    (left top width height bufferWidth bufferHeight : Z) (data : Z -> GrColor) (idx : Z) :
  0 <= left -> 0 <= top -> left + width <= bufferWidth -> top + height <= bufferHeight ->
  idx < 0 \/ bufferWidth * bufferHeight <= idx ->
  fill_transfer_data left top width height bufferWidth data idx = data idx.
Proof.
  intros Hl Ht Hw Hh Hidx. apply fill_transfer_data_outside.
  intros i j Hi Hj E. subst idx.
  assert (0 <= i + j * bufferWidth) by nia.
  assert (i + j * bufferWidth < bufferWidth * bufferHeight) by nia.
  lia.
Qed.

(* ===================================================================== *)
(** * Further properties, III: does_full_buffer_contain_correct_values    *)
(* ===================================================================== *)

Section CheckerFacts.
Variables (width height bufferWidth bufferHeight : Z).

(** A failed inner loop stopped at a column where the rows differ. *)
Lemma row_matches_false src dst srcPtr dstPtr cols :
  row_matches src dst srcPtr dstPtr cols = false ->
  exists i, i ∈ cols /\ src (srcPtr + i) <> dst (dstPtr + i).
Proof.
  induction cols as [| i cols IH]; simpl; [discriminate |].
  destruct (Z.eqb_spec (src (srcPtr + i)) (dst (dstPtr + i))) as [E | E]; simpl.
  - intros Hf. destruct (IH Hf) as (i' & Hi' & Hne). exists i'. split; [now right | exact Hne].
  - intros _. exists i. split; [now left | exact E].
Qed.

Lemma rows_match_false src dst dstIncrement rows :
  forall srcPtr dstPtr,
  rows_match src dst width bufferWidth dstIncrement srcPtr dstPtr rows = false ->
  exists (k : nat) i, (k < length rows)%nat /\ 0 <= i < width /\
    src (srcPtr + Z.of_nat k * bufferWidth + i) <>
    dst (dstPtr + Z.of_nat k * dstIncrement + i).
Proof.
  induction rows as [| r rows IH]; intros srcPtr dstPtr; simpl; [discriminate |].
  destruct (row_matches src dst srcPtr dstPtr (seqZ 0 width)) eqn:Hrow.
  - intros Hf. destruct (IH _ _ Hf) as (k & i & Hk & Hi & Hne).
    exists (S k), i. split; [lia |]. split; [exact Hi |].
    replace (srcPtr + Z.of_nat (S k) * bufferWidth)
      with (srcPtr + bufferWidth + Z.of_nat k * bufferWidth) by lia.
    replace (dstPtr + Z.of_nat (S k) * dstIncrement)
      with (dstPtr + dstIncrement + Z.of_nat k * dstIncrement) by lia.
    exact Hne.
  - intros _. destruct (row_matches_false _ _ _ _ _ Hrow) as (i & Hi & Hne).
    apply elem_of_seqZ in Hi. exists 0%nat, i. split; [simpl; lia |]. split; [lia |].
    rewrite !Z.mul_0_l, !Z.add_0_r. exact Hne.
Qed.

Lemma does_full_buffer_false_iff src dst origin :
  does_full_buffer_contain_correct_values src dst width height
    bufferWidth bufferHeight origin = false <->
  exists i j, 0 <= i < width /\ 0 <= j < height /\
    src (j * bufferWidth + i) <>
    dst (compared_dst_index bufferWidth bufferHeight origin i j).
Proof.
  split.
  - unfold does_full_buffer_contain_correct_values. intros Hf.
    apply rows_match_false in Hf as (k & i & Hk & Hi & Hne).
    rewrite length_seqZ in Hk.
    exists i, (Z.of_nat k). split; [exact Hi |]. split; [lia |].
    intros E. apply Hne.
    destruct origin; simpl in *;
      (etransitivity; [| etransitivity; [exact E |]]; f_equal; lia).
  - intros (i & j & Hi & Hj & Hne).
    destruct (does_full_buffer_contain_correct_values src dst width height
                bufferWidth bufferHeight origin) eqn:E; [| reflexivity].
    exfalso. apply Hne. exact (proj1 (does_full_buffer_iff _ _ _ _ _ _ _) E i j Hi Hj).
Qed.

End CheckerFacts.

(** The check answers false exactly when some compared pixel differs, so a
    failure always has a pixel to show for it.  In particular it notices
    any single compared entry of either buffer that is overwritten with a
    value other than its counterpart. *)
Theorem does_full_buffer_fails_on_a_mismatch
    (src dst : Z -> GrColor) (width height bufferWidth bufferHeight : Z)
    (origin : GrSurfaceOrigin) :
  (does_full_buffer_contain_correct_values src dst width height
     bufferWidth bufferHeight origin = false <->
   exists i j, 0 <= i < width /\ 0 <= j < height /\
     src (j * bufferWidth + i) <>
     dst (match origin with
          | kTopLeft_GrSurfaceOrigin => j * bufferWidth + i
          | kBottomLeft_GrSurfaceOrigin => (bufferHeight - 1 - j) * bufferWidth + i
          end)) /\
  (forall i j v, 0 <= i < width -> 0 <= j < height ->
     v <> src (j * bufferWidth + i) ->
     does_full_buffer_contain_correct_values src
       (store dst (compared_dst_index bufferWidth bufferHeight origin i j) v)
       width height bufferWidth bufferHeight origin = false) /\
  (forall i j v, 0 <= i < width -> 0 <= j < height ->
     v <> dst (compared_dst_index bufferWidth bufferHeight origin i j) ->
     does_full_buffer_contain_correct_values
       (store src (j * bufferWidth + i) v) dst
       width height bufferWidth bufferHeight origin = false).
Proof.
  split; [| split].
  - rewrite does_full_buffer_false_iff. unfold compared_dst_index.
    destruct origin; reflexivity.
  - intros i j v Hi Hj Hv. apply does_full_buffer_false_iff.
    exists i, j. split; [exact Hi |]. split; [exact Hj |].
    unfold store. rewrite Z.eqb_refl. congruence.
  - intros i j v Hi Hj Hv. apply does_full_buffer_false_iff.
    exists i, j. split; [exact Hi |]. split; [exact Hj |].
    unfold store. rewrite Z.eqb_refl. exact Hv.
Qed.

(** With nothing to compare the check passes: a width or a height that is
    zero or negative gives true whatever the buffers hold.  A check that
    passes on a window passes on every smaller window. *)
Theorem does_full_buffer_window
    (src dst : Z -> GrColor) (width height bufferWidth bufferHeight : Z)
    (origin : GrSurfaceOrigin) :
  (width <= 0 \/ height <= 0 ->
   does_full_buffer_contain_correct_values src dst width height
     bufferWidth bufferHeight origin = true) /\
  (forall width' height',
     width' <= width -> height' <= height ->
     does_full_buffer_contain_correct_values src dst width height
       bufferWidth bufferHeight origin = true ->
     does_full_buffer_contain_correct_values src dst width' height'
       bufferWidth bufferHeight origin = true).
Proof.
  split.
  - intros Hempty. apply does_full_buffer_iff. intros i j Hi Hj. lia.
  - intros width' height' Hw Hh Hok. apply does_full_buffer_iff.
    intros i j Hi Hj.
    apply (proj1 (does_full_buffer_iff _ _ _ _ _ _ _) Hok); lia.
Qed.

(** For a top-left origin the check is an equivalence of buffers on the
    window: it accepts a buffer against itself, does not depend on the order
    of its two buffers, and chains; [bufferHeight] plays no part in it. *)
Theorem does_full_buffer_top_left_equivalence
    (a b c : Z -> GrColor) (width height bufferWidth bufferHeight : Z) :
  does_full_buffer_contain_correct_values a a width height
    bufferWidth bufferHeight kTopLeft_GrSurfaceOrigin = true /\
  does_full_buffer_contain_correct_values a b width height
    bufferWidth bufferHeight kTopLeft_GrSurfaceOrigin =
  does_full_buffer_contain_correct_values b a width height
    bufferWidth bufferHeight kTopLeft_GrSurfaceOrigin /\
  (does_full_buffer_contain_correct_values a b width height
     bufferWidth bufferHeight kTopLeft_GrSurfaceOrigin = true ->
   does_full_buffer_contain_correct_values b c width height
     bufferWidth bufferHeight kTopLeft_GrSurfaceOrigin = true ->
   does_full_buffer_contain_correct_values a c width height
     bufferWidth bufferHeight kTopLeft_GrSurfaceOrigin = true) /\
  (forall bufferHeight',
     does_full_buffer_contain_correct_values a b width height
       bufferWidth bufferHeight' kTopLeft_GrSurfaceOrigin =
     does_full_buffer_contain_correct_values a b width height
       bufferWidth bufferHeight kTopLeft_GrSurfaceOrigin).
Proof.
  split; [| split; [| split]].
  - apply does_full_buffer_iff. reflexivity.
  - apply eq_true_iff_eq. rewrite !does_full_buffer_iff. simpl.
    split; intros Hall i j Hi Hj; symmetry; now apply Hall.
  - rewrite !does_full_buffer_iff. simpl. intros Hab Hbc i j Hi Hj.
    rewrite Hab by assumption. now apply Hbc.
  - intros bufferHeight'. apply eq_true_iff_eq. rewrite !does_full_buffer_iff.
    reflexivity.
Qed.

(** For a bottom-left origin and a buffer exactly [height] rows high the
    check relates a buffer to its vertical mirror image: it does not depend
    on the order of its two buffers, and two mirrored checks in a row give
    the top-left check, as two reversals of the rows cancel. *)
Theorem does_full_buffer_bottom_left_mirror
    (a b c : Z -> GrColor) (width height bufferWidth : Z) :
  does_full_buffer_contain_correct_values a b width height
    bufferWidth height kBottomLeft_GrSurfaceOrigin =
  does_full_buffer_contain_correct_values b a width height
    bufferWidth height kBottomLeft_GrSurfaceOrigin /\
  (does_full_buffer_contain_correct_values a b width height
     bufferWidth height kBottomLeft_GrSurfaceOrigin = true ->
   does_full_buffer_contain_correct_values b c width height
     bufferWidth height kBottomLeft_GrSurfaceOrigin = true ->
   does_full_buffer_contain_correct_values a c width height
     bufferWidth height kTopLeft_GrSurfaceOrigin = true).
Proof.
  split.
  - apply eq_true_iff_eq. rewrite !does_full_buffer_iff. simpl.
    split; intros Hall i j Hi Hj.
    + rewrite (Hall i (height - 1 - j)) by lia. f_equal. lia.
    + rewrite (Hall i (height - 1 - j)) by lia. f_equal. lia.
  - rewrite !does_full_buffer_iff. simpl. intros Hab Hbc i j Hi Hj.
    rewrite (Hab i j) by assumption.
    rewrite (Hbc i (height - 1 - j)) by lia. f_equal. lia.
Qed.

(** When the window fits the buffer ([width <= bufferWidth],
    [height <= bufferHeight]) the check reads only entries of the
    [bufferWidth*bufferHeight] allocation of either buffer. *)
Theorem does_full_buffer_reads_in_bounds
    (src dst src' dst' : Z -> GrColor) (width height bufferWidth bufferHeight : Z)
    (origin : GrSurfaceOrigin) :
  width <= bufferWidth -> height <= bufferHeight ->
  (forall idx, 0 <= idx < bufferWidth * bufferHeight -> src' idx = src idx) ->
  (forall idx, 0 <= idx < bufferWidth * bufferHeight -> dst' idx = dst idx) ->
  does_full_buffer_contain_correct_values src' dst' width height
    bufferWidth bufferHeight origin =
  does_full_buffer_contain_correct_values src dst width height
    bufferWidth bufferHeight origin.
Proof.
  intros Hw Hh Hs Hd. apply does_full_buffer_ext.
  - intros i j Hi Hj. apply Hs. split; [nia |].
    assert (j * bufferWidth + i < (j + 1) * bufferWidth) by lia. nia.
  - intros i j Hi Hj. apply Hd. destruct origin; simpl.
    + split; [nia |].
      assert (j * bufferWidth + i < (j + 1) * bufferWidth) by lia. nia.
    + split; [nia |].
      assert ((bufferHeight - 1 - j) * bufferWidth + i <
              (bufferHeight - j) * bufferWidth) by lia. nia.
Qed.

(** With [height] above [bufferHeight] a bottom-left check walks off the
    front of [dstBuffer]: here the verdict hangs on the entry at offset -1. *)
Example bottom_left_reads_before_the_buffer :
  does_full_buffer_contain_correct_values
    (fun _ => 7) (fun x => if x =? -1 then 0 else 7) 1 2 1 1
    kBottomLeft_GrSurfaceOrigin = false /\
  does_full_buffer_contain_correct_values
    (fun _ => 7) (fun _ => 7) 1 2 1 1 kBottomLeft_GrSurfaceOrigin = true.
Proof. split; reflexivity. Qed.

(** For a buffer higher than the window the bottom-left check depends on
    the order of its buffers. *)
Example bottom_left_not_symmetric :
  does_full_buffer_contain_correct_values
    (fun x => if x =? 0 then 1 else 5) (fun x => if x =? 1 then 1 else 0) 1 1 1 2
    kBottomLeft_GrSurfaceOrigin = true /\
  does_full_buffer_contain_correct_values
    (fun x => if x =? 1 then 1 else 0) (fun x => if x =? 0 then 1 else 5) 1 1 1 2
    kBottomLeft_GrSurfaceOrigin = false.
Proof. split; reflexivity. Qed.

(* ===================================================================== *)
(** * Further properties, IV: basic_transfer_test                         *)
(* ===================================================================== *)

Lemma GrColorPackRGBA_range r g b a : 0 <= GrColorPackRGBA r g b a < 2 ^ 32.
Proof. unfold GrColorPackRGBA, u32. apply Z.mod_pos_bound. lia. Qed.

(** An entry read through [GrColor*] from bytes that are those of a colour. *)
Lemma colors_of_bytes_agree (out : Z -> Z) (src : Z -> GrColor) (n n' : Z) :
  0 <= src n' < 2 ^ 32 ->
  (forall k, 0 <= k < 4 -> out (4 * n + k) = bytes_of_colors src (4 * n' + k)) ->
  colors_of_bytes out n = src n'.
Proof.
  intros Hr Hb. apply colors_of_bytes_of_color; [exact Hr |].
  intros k Hk. rewrite (Hb k Hk). now apply bytes_of_colors_at.
Qed.

Section TestSoundness.
Variable Tex : Type.
Variable transferPixels :
  Tex -> Z -> Z -> Z -> Z -> GrGpu.GrColorType -> (Z -> Z) -> Z -> Z -> bool * Tex.
Variable readPixels :
  Tex -> GrSurfaceOrigin -> Z -> Z -> Z -> Z -> GrGpu.GrColorType -> (Z -> Z) -> Z ->
  bool * (Z -> Z).
Variable ready : Tex -> Prop.
Variable view : Tex -> Z -> Z -> Z.

(** The contract of a backend, on 4-byte pixels: a transfer into a
    rectangle inside the texture succeeds and replaces the pixels of the
    rectangle, row by row, by those of the buffer; a read of the whole
    texture that succeeds returns its rows top-down, reversed for a
    bottom-left origin. *)
Hypothesis transfer_contract :
  forall tex x y w h ct buf off rb,
    ready tex -> 0 <= x -> 0 <= y -> 0 <= w -> 0 <= h ->
    x + w <= kTextureWidth -> y + h <= kTextureHeight ->
    exists tex',
      transferPixels tex x y w h ct buf off rb = (true, tex') /\ ready tex' /\
      forall r i k, 0 <= r < kTextureHeight -> 0 <= i < kTextureWidth -> 0 <= k < 4 ->
        view tex' r (4 * i + k) =
        if in_rect x y w h i r
        then buf (off + (r - y) * rb + 4 * (i - x) + k)
        else view tex r (4 * i + k).

Hypothesis read_contract :
  forall tex origin ct out rb out',
    ready tex -> 4 * kTextureWidth <= rb ->
    readPixels tex origin 0 0 kTextureWidth kTextureHeight ct out rb = (true, out') ->
    forall i j k, 0 <= i < kTextureWidth -> 0 <= j < kTextureHeight -> 0 <= k < 4 ->
      out' (j * rb + 4 * i + k) =
      view tex match origin with
               | kTopLeft_GrSurfaceOrigin => j
               | kBottomLeft_GrSurfaceOrigin => kTextureHeight - 1 - j
               end (4 * i + k).

Lemma transfer_pass_sound ct origin tex b :
  ready tex -> buffers_staged b ->
  forallb id (fst (transfer_pass_on Tex transferPixels readPixels ct origin tex b)) = true /\
  buffers_staged (snd (transfer_pass_on Tex transferPixels readPixels ct origin tex b)).
Proof.
  intros Hready [Hbuf Hrange]. unfold transfer_pass_on.
  unfold kTextureWidth, kTextureHeight, kBufferWidth, kBufferHeight, kLeft, kTop,
    kWidth, kHeight, sizeof_GrColor in *.
  destruct (transfer_contract tex 0 0 16 16 ct (buffer b) 0 (20 * 4) Hready
              ltac:(lia) ltac:(lia) ltac:(lia) ltac:(lia)
              ltac:(unfold kTextureWidth; lia) ltac:(unfold kTextureHeight; lia))
    as (tex1 & -> & Hready1 & Hview1).
  destruct (readPixels tex1 origin 0 0 16 16 ct (memset (dstBuffer b) 52685 (20 * 4 * 16))
              (20 * 4)) as [result2 dst2] eqn:R2.
  set (src' := fill_transfer_data 2 10 10 2 20 (srcBuffer b)).
  destruct (transfer_contract tex1 2 10 10 2 ct (bytes_of_colors src')
              (4 * (10 * 20 + 2)) (20 * 4) Hready1
              ltac:(lia) ltac:(lia) ltac:(lia) ltac:(lia)
              ltac:(unfold kTextureWidth; lia) ltac:(unfold kTextureHeight; lia))
    as (tex2 & -> & Hready2 & Hview2).
  destruct (readPixels tex2 origin 0 0 16 16 ct (memset dst2 52685 (20 * 4 * 16))
              (20 * 4)) as [result4 dst4] eqn:R4.
  unfold kTextureWidth, kTextureHeight in *.
  (* the bytes of pixel (i, j) of the first texture *)
  assert (Htex1 : forall i j k, 0 <= i < 16 -> 0 <= j < 16 -> 0 <= k < 4 ->
            view tex1 j (4 * i + k) =
            bytes_of_colors (srcBuffer b) (4 * (j * 20 + i) + k)).
  { intros i j k Hi Hj Hk. rewrite (Hview1 j i k Hj Hi Hk).
    assert (Hin : in_rect 0 0 16 16 i j = true) by (apply in_rect_spec; lia).
    rewrite Hin, Hbuf. f_equal. lia. }
  (* the second source buffer *)
  assert (Hsrc' : forall i j, 0 <= i < 16 -> 0 <= j < 16 ->
            src' (j * 20 + i) =
            if in_rect 2 10 10 2 i j then gradient_color 2 10 10 2 i j
            else srcBuffer b (j * 20 + i)).
  { intros i j Hi Hj. subst src'.
    replace (j * 20 + i) with (i + j * 20) by lia.
    apply fill_transfer_data_at; lia. }
  assert (Hrange' : forall i j, 0 <= i < 16 -> 0 <= j < 16 ->
            0 <= src' (j * 20 + i) < 2 ^ 32).
  { intros i j Hi Hj. rewrite (Hsrc' i j Hi Hj).
    destruct (in_rect 2 10 10 2 i j); [apply GrColorPackRGBA_range | now apply Hrange]. }
  assert (Htex2 : forall i j k, 0 <= i < 16 -> 0 <= j < 16 -> 0 <= k < 4 ->
            view tex2 j (4 * i + k) = bytes_of_colors src' (4 * (j * 20 + i) + k)).
  { intros i j k Hi Hj Hk. rewrite (Hview2 j i k Hj Hi Hk).
    destruct (in_rect 2 10 10 2 i j) eqn:Hin.
    - f_equal. lia.
    - rewrite (Htex1 i j k Hi Hj Hk), !bytes_of_colors_at by exact Hk.
      rewrite (Hsrc' i j Hi Hj), Hin. reflexivity. }
  (* a successful read agrees with the source buffer *)
  assert (Hcheck : forall texN (srcN : Z -> GrColor) out out',
            ready texN ->
            (forall i j k, 0 <= i < 16 -> 0 <= j < 16 -> 0 <= k < 4 ->
               view texN j (4 * i + k) = bytes_of_colors srcN (4 * (j * 20 + i) + k)) ->
            (forall i j, 0 <= i < 16 -> 0 <= j < 16 -> 0 <= srcN (j * 20 + i) < 2 ^ 32) ->
            readPixels texN origin 0 0 16 16 ct out (20 * 4) = (true, out') ->
            does_full_buffer_contain_correct_values srcN (colors_of_bytes out')
              16 16 20 16 origin = true).
  { intros texN srcN out out' HreadyN HtexN HrangeN HR.
    apply does_full_buffer_iff. intros i j Hi Hj. symmetry.
    pose proof (read_contract texN origin ct out (20 * 4) out' HreadyN
                  ltac:(unfold kTextureWidth; lia) HR) as Hout.
    unfold kTextureWidth, kTextureHeight in Hout.
    apply colors_of_bytes_agree; [now apply HrangeN |].
    intros k Hk. destruct origin; simpl.
    - replace (4 * (j * 20 + i) + k) with (j * (20 * 4) + 4 * i + k) at 1 by lia.
      rewrite (Hout i j k Hi Hj Hk). now apply HtexN.
    - replace (4 * ((16 - 1 - j) * 20 + i) + k)
        with ((16 - 1 - j) * (20 * 4) + 4 * i + k) by lia.
      rewrite (Hout i (16 - 1 - j) k Hi ltac:(lia) Hk).
      replace (16 - 1 - (16 - 1 - j)) with j by lia. now apply HtexN. }
  simpl. split.
  - assert (C2 : (if result2
                  then does_full_buffer_contain_correct_values (srcBuffer b)
                         (colors_of_bytes dst2) 16 16 20 16 origin
                  else true) = true).
    { destruct result2; [| reflexivity].
      exact (Hcheck tex1 (srcBuffer b) _ dst2 Hready1 Htex1 Hrange R2). }
    assert (C4 : (if result4
                  then does_full_buffer_contain_correct_values src'
                         (colors_of_bytes dst4) 16 16 20 16 origin
                  else true) = true).
    { destruct result4; [| reflexivity].
      exact (Hcheck tex2 src' _ dst4 Hready2 Htex2 Hrange' R4). }
    unfold id. rewrite C2, C4. reflexivity.
  - split; [reflexivity | exact Hrange'].
Qed.

Lemma transfer_passes_sound ct origin texs :
  forall b, Forall ready texs -> buffers_staged b ->
  forallb id (transfer_passes_on Tex transferPixels readPixels ct origin texs b) = true.
Proof.
  induction texs as [| tex texs IH]; intros b Hall Hb; [reflexivity |].
  apply Forall_cons in Hall as [Htex Hall]. simpl.
  destruct (transfer_pass_sound ct origin tex b Htex Hb) as [Hok Hb'].
  destruct (transfer_pass_on Tex transferPixels readPixels ct origin tex b)
    as [asserts b'].
  rewrite forallb_app. simpl in Hok, Hb'. rewrite Hok. simpl. now apply IH.
Qed.

Lemma fresh_buffers_staged src0 dst0 :
  buffers_staged
    (mkTestBuffers
       (fill_transfer_data 0 0 kTextureWidth kTextureHeight kBufferWidth src0)
       (bytes_of_colors
          (fill_transfer_data 0 0 kTextureWidth kTextureHeight kBufferWidth src0))
       dst0).
Proof.
  split; [reflexivity |]. simpl.
  unfold kTextureWidth, kTextureHeight, kBufferWidth. intros i j Hi Hj.
  replace (j * 20 + i) with (i + j * 20) by lia.
  rewrite fill_transfer_data_inside by lia. apply GrColorPackRGBA_range.
Qed.

(** [basic_transfer_test] is a sound test of the protocol: on a backend that
    keeps the contract, every assertion of every pass holds, for each
    colour type and origin and whatever the fresh buffers contain; a read
    that reports failure is tolerated. *)
Theorem basic_transfer_test_sound
    (texs : list Tex) (ct : GrGpu.GrColorType) (origin : GrSurfaceOrigin)
    (src0 : Z -> GrColor) (dst0 : Z -> Z) :
  Forall ready texs ->
  forallb id (basic_transfer_test_on Tex transferPixels readPixels texs ct origin
                src0 dst0) = true.
Proof.
  intros Hall. unfold basic_transfer_test_on.
  apply transfer_passes_sound; [exact Hall | apply fresh_buffers_staged].
Qed.

(** [TransferPixelsTest] is a sound test of the protocol: on a backend that
    keeps the contract, none of the assertions of its eight calls of
    [basic_transfer_test] fails, whatever textures the context creates for
    them. *)
Theorem TransferPixelsTest_sound (ctx : TestContext Tex) :
  (forall ct renderTarget, Forall ready (createdTextures Tex ctx ct renderTarget)) ->
  forallb id (TransferPixelsTest_on Tex transferPixels readPixels ctx) = true.
Proof.
  intros Hall. unfold TransferPixelsTest_on.
  rewrite !forallb_app, !andb_true_iff.
  repeat split; apply transfer_passes_sound;
    first [apply Hall | apply fresh_buffers_staged].
Qed.

End TestSoundness.

(** The modelled backend keeps the contract on textures of the size of the
    test that accept transfers. *)
Lemma GrGpu_transfer_contract tex x y w h ct buf off rb :
  test_ready tex -> 0 <= x -> 0 <= y -> 0 <= w -> 0 <= h ->
  x + w <= kTextureWidth -> y + h <= kTextureHeight ->
  exists tex',
    GrGpu.transferPixels tex x y w h ct buf off rb = (true, tex') /\ test_ready tex' /\
    forall r i k, 0 <= r < kTextureHeight -> 0 <= i < kTextureWidth -> 0 <= k < 4 ->
      GrGpu.texels tex' r (4 * i + k) =
      if in_rect x y w h i r
      then buf (off + (r - y) * rb + 4 * (i - x) + k)
      else GrGpu.texels tex r (4 * i + k).
Proof.
  intros (Hc & Hw & Hh) Hx Hy Hw0 Hh0 Hxw Hyh.
  eexists. split; [apply transferPixels_ok; [exact Hc |] |].
  { apply contains_spec. rewrite Hw, Hh. lia. }
  split; [split; [exact Hc | split; assumption] |].
  intros r i k Hr Hi Hk. simpl. unfold GrGpu.bytesPerPixel, in_rect.
  destruct (Z.leb_spec x i); destruct (Z.ltb_spec i (x + w));
    destruct (Z.leb_spec y r); destruct (Z.ltb_spec r (y + h));
    destruct (Z.leb_spec (4 * x) (4 * i + k));
    destruct (Z.ltb_spec (4 * i + k) (4 * (x + w)));
    simpl; try lia; try reflexivity.
  f_equal. lia.
Qed.

Lemma GrGpu_read_contract tex origin ct out rb out' :
  test_ready tex -> 4 * kTextureWidth <= rb ->
  GrGpu.readPixels tex origin 0 0 kTextureWidth kTextureHeight ct out rb = (true, out') ->
  forall i j k, 0 <= i < kTextureWidth -> 0 <= j < kTextureHeight -> 0 <= k < 4 ->
    out' (j * rb + 4 * i + k) =
    GrGpu.texels tex match origin with
                     | kTopLeft_GrSurfaceOrigin => j
                     | kBottomLeft_GrSurfaceOrigin => kTextureHeight - 1 - j
                     end (4 * i + k).
Proof.
  intros (Hc & Hw & Hh) Hrb HR i j k Hi Hj Hk.
  assert (Hcr : GrGpu.canRead tex = true).
  { destruct (GrGpu.canRead tex) eqn:E; [reflexivity |].
    unfold GrGpu.readPixels in HR. rewrite E in HR. discriminate. }
  rewrite readPixels_ok in HR
    by (try exact Hcr; apply contains_spec; rewrite Hw, Hh;
        unfold kTextureWidth, kTextureHeight; lia).
  assert (Hout : out' = foldl (GrGpu.write_row tex origin
                                 (GrGpu.bytesPerPixel ct * 0) 0
                                 (GrGpu.bytesPerPixel ct * kTextureWidth) rb)
                              out (seqZ 0 kTextureHeight)) by congruence.
  subst out'. unfold GrGpu.bytesPerPixel.
  rewrite <- Z.add_assoc. rewrite read_rows_inside by lia.
  destruct origin; simpl; rewrite ?Hh; f_equal; lia.
Qed.

(** [basic_transfer_test] on the modelled backend is the test on an arbitrary
    backend, taken at that backend. *)
Lemma basic_transfer_test_instance texs ct origin src0 dst0 :
  basic_transfer_test texs ct origin src0 dst0 =
  basic_transfer_test_on GrGpu.GrTexture GrGpu.transferPixels GrGpu.readPixels
    texs ct origin src0 dst0.
Proof.
  unfold basic_transfer_test, basic_transfer_test_on.
  generalize (mkTestBuffers
                (fill_transfer_data 0 0 kTextureWidth kTextureHeight kBufferWidth src0)
                (bytes_of_colors
                   (fill_transfer_data 0 0 kTextureWidth kTextureHeight kBufferWidth src0))
                dst0).
  induction texs as [| tex texs IH]; intros b; [reflexivity |].
  simpl. change (transfer_pass ct origin tex b)
    with (transfer_pass_on GrGpu.GrTexture GrGpu.transferPixels GrGpu.readPixels
            ct origin tex b).
  destruct (transfer_pass_on _ _ _ ct origin tex b) as [asserts b'].
  now rewrite IH.
Qed.

(** The [memset] of [dstBuffer] before each read is what lets the test catch
    a read that reports success without writing: the stale pattern
    0xCDCDCDCD is no pixel of the gradient, so both guarded checks fail,
    whatever the transfers did and whatever the buffers held. *)
Theorem basic_transfer_test_detects_lazy_read
    (Tex : Type)
    (transferPixels :
       Tex -> Z -> Z -> Z -> Z -> GrGpu.GrColorType -> (Z -> Z) -> Z -> Z -> bool * Tex)
    (tex : Tex) (ct : GrGpu.GrColorType) (origin : GrSurfaceOrigin)
    (src0 : Z -> GrColor) (dst0 : Z -> Z) :
  exists result1 result3,
    basic_transfer_test_on Tex transferPixels
      (fun _ _ _ _ _ _ _ out _ => (true, out)) [tex] ct origin src0 dst0 =
    [result1; false; result3; false].
Proof.
  unfold basic_transfer_test_on, transfer_passes_on, transfer_pass_on.
  cbv zeta.
  destruct (transferPixels tex 0 0 kTextureWidth kTextureHeight ct _ 0 _)
    as [result1 tex1].
  destruct (transferPixels tex1 kLeft kTop kWidth kHeight ct _ _ _) as [result3 tex2].
  exists result1, result3. rewrite app_nil_r.
  unfold kTextureWidth, kTextureHeight, kBufferWidth, kBufferHeight, kLeft, kTop,
    kWidth, kHeight, sizeof_GrColor.
  set (src := fill_transfer_data 0 0 16 16 20 src0).
  assert (Hsrc : src (0 * 20 + 0) = 4294901760).
  { subst src. change (0 * 20 + 0) with (0 + 0 * 20).
    rewrite fill_transfer_data_inside by lia. reflexivity. }
  assert (Hsrc' : fill_transfer_data 2 10 10 2 20 src (0 * 20 + 0) = 4294901760).
  { rewrite fill_transfer_data_outside; [exact Hsrc |]. intros i j Hi Hj. lia. }
  assert (Hstale : forall m,
            colors_of_bytes (memset m 52685 (20 * 4 * 16))
              (compared_dst_index 20 16 origin 0 0) = 3452816845).
  { intros m. destruct origin; reflexivity. }
  assert (Hfalse : forall s m, s (0 * 20 + 0) = 4294901760 ->
            does_full_buffer_contain_correct_values s
              (colors_of_bytes (memset m 52685 (20 * 4 * 16))) 16 16 20 16 origin = false).
  { intros s m Hs. apply does_full_buffer_false_iff. exists 0, 0.
    split; [lia |]. split; [lia |]. rewrite Hs, Hstale. discriminate. }
  cbn [srcBuffer buffer dstBuffer].
  rewrite (Hfalse src dst0 Hsrc), (Hfalse _ _ Hsrc'). reflexivity.
Qed.

(** A backend that keeps the contract but for the origin, returning the
    rows of a bottom-left read unreversed, fails both guarded checks. *)
Example basic_transfer_test_detects_unreversed_rows :
  basic_transfer_test_on GrGpu.GrTexture GrGpu.transferPixels
    (fun tex _ => GrGpu.readPixels tex kTopLeft_GrSurfaceOrigin)
    [test_texture] GrGpu.kRGBA_8888 kBottomLeft_GrSurfaceOrigin
    (fun _ => 0) (fun _ => 0) =
  [true; false; true; false].
Proof. vm_compute. reflexivity. Qed.

(* ===================================================================== *)
(** * Witnesses of the further properties                                 *)
(* ===================================================================== *)

Lemma gate_field_round_trip_witness :
  heap sample_world !! 2%positive = Some held_resource /\
  exists w1,
    @CacheAccess.setTimestamp (CacheAccess.cacheAccess 2%positive) (2 ^ 32 + 5)
      sample_world = Some (tt, w1) /\
    @CacheAccess.timestamp (CacheAccess.cacheAccess 2%positive) w1 = Some (5, w1) /\
    heap w1 !! 2%positive =
      Some (GrGpuResource.mk (Some 3%positive) (Some 7%positive) true
              GrGpuResource.kOwned_LifeCycle 5 1 2%nat (Some 43)).
Proof.
  split; [reflexivity |].
  destruct (gate_field_round_trip
              (CacheAccess.cacheAccess 2%positive) sample_world held_resource
              (2 ^ 32 + 5) 9 eq_refl)
    as (w1 & w2 & Hset & _ & Hst & _ & Hget & _).
  exists w1. split; [exact Hset |]. split; [exact Hget | exact Hst].
Defined.

Lemma gate_sequence_locality_witness :
  hook_local (world_release (lift_members GrGpuResource.spec_members)) /\
  hook_local (world_abandon (lift_members GrGpuResource.spec_members)) /\
  exists w',
    run_ops_in (lift_members GrGpuResource.spec_members)
      [(CacheAccess.cacheAccess 1%positive, CacheAccess.OpSetTimestamp 5);
       (CacheAccess.cacheAccess 1%positive, CacheAccess.OpRelease)]
      sample_world = Some (tt, w') /\
    heap w' !! 1%positive = None /\
    heap w' !! 2%positive = heap sample_world !! 2%positive.
Proof.
  split; [apply lift_hooks_local |]. split; [apply lift_hooks_local |].
  eexists. split; [vm_compute; reflexivity |]. split; [reflexivity |].
  refine (proj1 (gate_sequence_locality (lift_members GrGpuResource.spec_members)
                   (proj1 (@lift_hooks_local GrGpuResource.spec_members))
                   (proj2 (@lift_hooks_local GrGpuResource.spec_members))
                   [(CacheAccess.cacheAccess 1%positive, CacheAccess.OpSetTimestamp 5);
                    (CacheAccess.cacheAccess 1%positive, CacheAccess.OpRelease)]
                   sample_world _ _) 2%positive _).
  - vm_compute. reflexivity.
  - vm_compute. intros Hin. inversion Hin as [| ? ? ? Hin']; subst.
    inversion Hin' as [| ? ? ? Hin'']; subst. inversion Hin''.
Defined.

Lemma gate_use_after_destruction_witness :
  heap sample_world !! 1%positive = Some free_resource /\
  forall w1,
    @CacheAccess.release GrGpuResource.spec_members (CacheAccess.cacheAccess 1%positive)
      sample_world = Some (tt, w1) ->
    @CacheAccess.release GrGpuResource.spec_members (CacheAccess.cacheAccess 1%positive)
      w1 = None.
Proof.
  split; [reflexivity |]. intros w1 Hrel.
  destruct (@gate_use_after_destruction GrGpuResource.spec_members
              (CacheAccess.cacheAccess 1%positive) sample_world free_resource eq_refl)
    as [Hgone _].
  destruct (Hgone w1 (or_introl (conj Hrel eq_refl))) as [Hops _].
  exact (Hops CacheAccess.OpRelease).
Defined.

Lemma gradient_is_integer_quotient_witness :
  0 <= 3 < 10 /\ 10 <= 65536 /\ gradient 3 10 = 256 * 3 / 10.
Proof.
  split; [concrete |]. split; [concrete |].
  exact (proj1 (gradient_is_integer_quotient 3 10 ltac:(concrete) ltac:(concrete))).
Defined.

Lemma gradient_color_closed_form_witness :
  GrColorUnpackR (gradient_color kLeft kTop kWidth kHeight 5 11) = 256 * (5 - kLeft) / kWidth /\
  GrColorUnpackG (gradient_color kLeft kTop kWidth kHeight 5 11) = 256 * (11 - kTop) / kHeight.
Proof.
  destruct (gradient_color_closed_form kLeft kTop kWidth kHeight 5 11
              ltac:(concrete) ltac:(concrete) ltac:(concrete) ltac:(concrete))
    as (_ & HR & HG & _).
  split; [exact HR | exact HG].
Defined.

Lemma fill_transfer_data_twice_witness :
  fill_transfer_data kLeft kTop kWidth kHeight kBufferWidth
    (fill_transfer_data 0 0 kTextureWidth kTextureHeight kBufferWidth (fun _ => 0))
    (3 + 10 * kBufferWidth) =
  (if in_rect kLeft kTop kWidth kHeight 3 10
   then gradient_color kLeft kTop kWidth kHeight 3 10
   else if in_rect 0 0 kTextureWidth kTextureHeight 3 10
        then gradient_color 0 0 kTextureWidth kTextureHeight 3 10
        else 0).
Proof.
  exact (proj1 (fill_transfer_data_twice 0 0 kTextureWidth kTextureHeight
                  kLeft kTop kWidth kHeight kBufferWidth (fun _ => 0)
                  ltac:(concrete) ltac:(concrete) ltac:(concrete) ltac:(concrete))
               3 10 ltac:(concrete)).
Defined.

Lemma fill_transfer_data_in_bounds_witness :
  fill_transfer_data kLeft kTop kWidth kHeight kBufferWidth (fun _ => 9)
    (kBufferWidth * kBufferHeight) = 9.
Proof.
  apply (fill_transfer_data_in_bounds kLeft kTop kWidth kHeight kBufferWidth kBufferHeight
           (fun _ => 9) (kBufferWidth * kBufferHeight));
    try concrete.
  right. concrete.
Defined.

Lemma does_full_buffer_reads_in_bounds_witness :
  does_full_buffer_contain_correct_values
    (fun idx => if idx <? 320 then test_srcBuffer idx else 1)
    (fun idx => if idx <? 0 then 2 else test_srcBuffer idx)
    kTextureWidth kTextureHeight kBufferWidth kBufferHeight kTopLeft_GrSurfaceOrigin =
  does_full_buffer_contain_correct_values test_srcBuffer test_srcBuffer
    kTextureWidth kTextureHeight kBufferWidth kBufferHeight kTopLeft_GrSurfaceOrigin.
Proof.
  apply does_full_buffer_reads_in_bounds; try concrete.
  - intros idx Hidx. change (kBufferWidth * kBufferHeight) with 320 in Hidx.
    destruct (Z.ltb_spec idx 320); [reflexivity | lia].
  - intros idx Hidx. destruct (Z.ltb_spec idx 0); [lia | reflexivity].
Defined.

Lemma test_textures_ready : Forall test_ready [test_texture; test_texture].
Proof. repeat constructor. Qed.

Lemma basic_transfer_test_sound_witness :
  forallb id
    (basic_transfer_test_on GrGpu.GrTexture GrGpu.transferPixels GrGpu.readPixels
       [test_texture; test_texture] GrGpu.kBGRA_8888 kBottomLeft_GrSurfaceOrigin
       (fun _ => 0) (fun _ => 0)) = true.
Proof.
  exact (basic_transfer_test_sound GrGpu.GrTexture GrGpu.transferPixels GrGpu.readPixels
           test_ready GrGpu.texels GrGpu_transfer_contract GrGpu_read_contract
           [test_texture; test_texture] GrGpu.kBGRA_8888 kBottomLeft_GrSurfaceOrigin
           (fun _ => 0) (fun _ => 0) test_textures_ready).
Defined.

Lemma TransferPixelsTest_sound_witness :
  forallb id
    (TransferPixelsTest_on GrGpu.GrTexture GrGpu.transferPixels GrGpu.readPixels
       test_context) = true.
Proof.
  exact (TransferPixelsTest_sound GrGpu.GrTexture GrGpu.transferPixels GrGpu.readPixels
           test_ready GrGpu.texels GrGpu_transfer_contract GrGpu_read_contract
           test_context (fun _ _ => test_textures_ready)).
Defined.
